(** * imagen3-mcp: the JSON-RPC image generation server of [src/scripts/main.ts]

    A shallow embedding of [main.ts]: the values the program handles, the
    world it runs in (environment variables, the provider reached through
    [fetch], the file system, the clock, the random source, standard output
    and the log), and the functions [generateImageFromGemini],
    [ImageGenerationServer.generate_image], [getInfo], [ensureDir],
    [listImages], [main], the handler registered with [rl.on('line', ...)]
    and the handler of the route [/list-images], each written as a
    computation over that world. *)

From Stdlib Require Import ZArith Lia Ascii String List.
From stdpp Require Import base option strings list gmap pretty.

Set Warnings "-register-all".
Local Open Scope Z_scope.

(** ** JavaScript values *)

Module JS.

(** What [JSON.parse] can return. Numbers are the integer-valued ones (they
    print in decimal, as JavaScript prints integers below 10^21); the program
    never computes with a number it has parsed. An object is the list of its
    own properties in insertion order. *)
Inductive json : Type :=
  | JNull
  | JBool (b : bool)
  | JNum (n : Z)
  | JStr (s : string)
  | JArr (elems : list json)
  | JObj (props : list (string * json)).

(** A value at run time: the result of reading a property can be [undefined]. *)
Inductive value : Type :=
  | Undefined
  | Json (j : json).

Coercion Json : json >-> value.

(** A thrown [Error]: only [name], [message] and (for file system errors)
    [code] are ever read by the program. *)
Record Error : Type := mkError {
  name : string;
  message : string;
  code : option string
}.

Definition new_Error (msg : string) : Error := mkError "Error" msg None.
Definition TypeError (msg : string) : Error := mkError "TypeError" msg None.
Definition SyntaxError (msg : string) : Error := mkError "SyntaxError" msg None.

(** Own-property lookup in a parsed object. *)
Fixpoint own (k : string) (props : list (string * json)) : value :=
  match props with
  | [] => Undefined
  | (k', v) :: rest => if decide (k = k') then Json v else own k rest
  end.

(** [v.k] for the property names the program reads ([id], [method],
    [params], [prompt], [aspect_ratio], and in the answer of the provider
    [error], [message], [predictions], [bytesBase64Encoded]): none of them
    lives on a prototype or is an index, so only a parsed object can answer
    with something defined; [undefined] and [null] have no properties at
    all. *)
Definition Get (v : value) (k : string) : Error + value :=
  match v with
  | Undefined =>
      inl (TypeError ("Cannot read properties of undefined (reading '" +:+ k +:+ "')"))
  | Json JNull =>
      inl (TypeError ("Cannot read properties of null (reading '" +:+ k +:+ "')"))
  | Json (JObj props) => inr (own k props)
  | Json _ => inr Undefined
  end.

(** [v === undefined || v === null], the test of [v ?? fallback]. *)
Definition nullish (v : value) : bool :=
  match v with
  | Undefined | Json JNull => true
  | _ => false
  end.

(** ToBoolean. *)
Definition truthy (v : value) : bool :=
  match v with
  | Undefined | Json JNull => false
  | Json (JBool b) => b
  | Json (JNum n) => negb (n =? 0)
  | Json (JStr s) => negb (bool_decide (s = ""))
  | Json (JArr _) | Json (JObj _) => true
  end.

Definition has_own (k : string) (props : list (string * json)) : bool :=
  existsb (fun p => bool_decide (p.1 = k)) props.

Definition join (sep : string) (l : list string) : string :=
  match l with
  | [] => ""
  | x :: rest => fold_left (fun acc y => acc +:+ sep +:+ y) rest x
  end.

(** ToString, as a template literal applies it. An array goes through
    [Array.prototype.join] (holes of [null] print as nothing); a parsed object
    prints through [Object.prototype.toString] unless an own property named
    [toString] hides it, in which case no callable conversion is left and the
    conversion throws. *)
Fixpoint ToString_json (j : json) : Error + string :=
  match j with
  | JNull => inr "null"
  | JBool true => inr "true"
  | JBool false => inr "false"
  | JNum n => inr (pretty n)
  | JStr s => inr s
  | JArr elems =>
      let fix each (l : list json) : Error + list string :=
        match l with
        | [] => inr []
        | x :: rest =>
            match (match x with JNull => inr "" | _ => ToString_json x end) with
            | inl e => inl e
            | inr s =>
                match each rest with
                | inl e => inl e
                | inr ss => inr (s :: ss)
                end
            end
        end in
      match each elems with
      | inl e => inl e
      | inr ss => inr (join "," ss)
      end
  | JObj props =>
      if has_own "toString" props
      then inl (TypeError "Cannot convert object to primitive value")
      else inr "[object Object]"
  end.

Definition ToString (v : value) : Error + string :=
  match v with
  | Undefined => inr "undefined"
  | Json j => ToString_json j
  end.

(** [Array.prototype.includes] on an array of strings (SameValueZero). *)
Definition includes (l : list string) (v : value) : bool :=
  match v with
  | Json (JStr s) => bool_decide (s ∈ l)
  | _ => false
  end.

(** [v.length === 0] for a value that is neither [undefined] nor [null]: an
    array has as length the number of its elements, a string the number of
    its code units, a parsed object its own property [length] if it has one;
    a number or a boolean has none. *)
Definition length_is_0 (v : value) : bool :=
  match v with
  | Json (JArr elems) => bool_decide (elems = [])
  | Json (JStr s) => bool_decide (s = "")
  | Json (JObj props) =>
      match own "length" props with
      | Json (JNum n) => n =? 0
      | _ => false
      end
  | _ => false
  end.

(** What [for (const x of v)] runs through, [what] being the name the loop
    gives [v]: the elements of an array, the characters of a string (each a
    string of its own; a character of the text stands for a code point); no
    other value [JSON.parse] returns is iterable. *)
Definition iterate (what : string) (v : value) : Error + list value :=
  match v with
  | Json (JArr elems) => inr (Json <$> elems)
  | Json (JStr s) => inr ((λ c, Json (JStr (String c ""))) <$> list_ascii_of_string s)
  | _ => inl (TypeError (what +:+ " is not iterable"))
  end.

(** [JSON.stringify] of an object literal, seen through the document it
    writes: a property whose value is [undefined] is left out. *)
Fixpoint stringify_props (props : list (string * value)) : list (string * json) :=
  match props with
  | [] => []
  | (k, Undefined) :: rest => stringify_props rest
  | (k, Json j) :: rest => (k, j) :: stringify_props rest
  end.

Definition JSON_stringify (props : list (string * value)) : json :=
  JObj (stringify_props props).

(** A piece of text the program hands to [JSON.parse]: its characters and
    what [JSON.parse] makes of them, read at the type the source gives the
    result (it casts without checking). *)
Record Text (A : Type) : Type := mkText {
  raw : string;
  parsed : string + A
}.
Arguments mkText {A} _ _.
Arguments raw {A} _.
Arguments parsed {A} _.

Definition JSON_parse {A : Type} (t : Text A) : Error + A :=
  match parsed t with
  | inl msg => inl (SyntaxError msg)
  | inr a => inr a
  end.

End JS.

(** ** The libraries the program calls *)

Module Lib.

(** [nanoid]: the package's alphabet of 64 URL-safe symbols; each symbol of
    an identifier is picked by the low six bits of one random byte. *)
Definition urlAlphabet : string :=
  "useandom-26T198340PX75pxJACKVERYMINDBUSHWOLF_GQZbfghjklqvwyzrict".

Definition symbol (b : Z) : ascii :=
  default "u"%char (list_ascii_of_string urlAlphabet !! Z.to_nat (Z.land b 63)).

Definition nanoid_of (bytes : list Z) : string :=
  string_of_list_ascii (symbol <$> bytes).

(** Characters a URL path segment may carry unescaped and that [nanoid]
    draws from: letters, digits, [-] and [_]. *)
Definition url_safe (c : ascii) : bool :=
  let n := Z.of_nat (nat_of_ascii c) in
  ((65 <=? n) && (n <=? 90)) || ((97 <=? n) && (n <=? 122))
  || ((48 <=? n) && (n <=? 57)) || (n =? 45) || (n =? 95).

(** [date-fns]: the civil date of a day count (days since 1970-01-01). *)
Definition civil_from_days (days : Z) : Z * Z * Z :=
  let z := days + 719468 in
  let era := z / 146097 in
  let doe := z - era * 146097 in
  let yoe := (doe - doe / 1460 + doe / 36524 - doe / 146096) / 365 in
  let doy := doe - (365 * yoe + yoe / 4 - yoe / 100) in
  let mp := (5 * doy + 2) / 153 in
  let d := doy - (153 * mp + 2) / 5 + 1 in
  let m := if mp <? 10 then mp + 3 else mp - 9 in
  let y := yoe + era * 400 + (if m <=? 2 then 1 else 0) in
  (y, m, d).

(** [String.prototype.padStart(targetLength, '0')]. *)
Definition padStart (targetLength : nat) (s : string) : string :=
  string_of_list_ascii (replicate (targetLength - String.length s) "0"%char) +:+ s.

(** [addLeadingZeros] of date-fns. *)
Definition addLeadingZeros (number : Z) (targetLength : nat) : string :=
  (if number <? 0 then "-" else "") +:+ padStart targetLength (pretty (Z.abs number)).

(** The fields of the wall clock [secs] seconds after 1970-01-01T00:00:00 of
    that same clock, rendered by the pattern ['yyyyMMddHHmmss'] (the token
    [yyyy] prints the year of the era, so year 0 and before count upwards). *)
Definition yyyyMMddHHmmss (secs : Z) : string :=
  let '(y, m, d) := civil_from_days (secs / 86400) in
  let tod := secs mod 86400 in
  addLeadingZeros (if 0 <? y then y else 1 - y) 4 +:+ addLeadingZeros m 2 +:+ addLeadingZeros d 2
  +:+ addLeadingZeros (tod / 3600) 2 +:+ addLeadingZeros (tod mod 3600 / 60) 2
  +:+ addLeadingZeros (tod mod 60) 2.

(** [formatDate(date, 'yyyyMMddHHmmss')]: date-fns prints the fields of the
    date in the time zone of the process ([getFullYear], [getMonth],
    [getDate], [getHours], [getMinutes], [getSeconds]). [ms] is the instant in
    milliseconds since the epoch, [offset] the minutes local time is ahead of
    UTC at that instant. *)
Definition formatDate (offset : Z) (ms : Z) : string :=
  yyyyMMddHHmmss (ms / 1000 + 60 * offset).

(** The same instant printed in UTC, which is what a timestamp "in UTC"
    would be. *)
Definition formatDateUTC (ms : Z) : string := yyyyMMddHHmmss (ms / 1000).

(** [path.join] of a normalised directory and a plain segment (POSIX). *)
Definition path_join (dir segment : string) : string := dir +:+ "/" +:+ segment.

(** [parseInt(s, 10)]. White space is skipped, then an optional sign, then
    the longest run of decimal digits is read; with no digit the result is
    [NaN], here [None]. The result is the integer read, as it is for every
    value a double holds exactly. *)
Definition digit_of (c : ascii) : option Z :=
  let n := Z.of_nat (nat_of_ascii c) in
  if (48 <=? n) && (n <=? 57) then Some (n - 48) else None.

Fixpoint digits (acc : option Z) (s : string) : option Z :=
  match s with
  | String c rest =>
      match digit_of c with
      | Some d => digits (Some (10 * default 0 acc + d)) rest
      | None => acc
      end
  | EmptyString => acc
  end.

(** StrWhiteSpaceChar, on the UTF-8 bytes of the string: TAB, LF, VT, FF, CR,
    SP, U+00A0, U+1680, U+2000..U+200A, U+2028, U+2029, U+202F, U+205F,
    U+3000, U+FEFF. [skip_ws] returns the rest of the string. *)
Definition ws1 (c : ascii) : bool :=
  let n := nat_of_ascii c in
  ((9 <=? n) && (n <=? 13))%nat || (n =? 32)%nat.

Fixpoint skip_ws (fuel : nat) (s : string) : string :=
  match fuel with
  | O => s
  | S fuel' =>
      match s with
      | String c rest =>
          if ws1 c then skip_ws fuel' rest else
          match nat_of_ascii c, rest with
          | 194%nat, String c2 r2 =>
              if (nat_of_ascii c2 =? 160)%nat then skip_ws fuel' r2 else s
          | 225%nat, String c2 (String c3 r3) =>
              if ((nat_of_ascii c2 =? 154) && (nat_of_ascii c3 =? 128))%nat
              then skip_ws fuel' r3 else s
          | 226%nat, String c2 (String c3 r3) =>
              let n2 := nat_of_ascii c2 in
              let n3 := nat_of_ascii c3 in
              if ((n2 =? 128) && (((128 <=? n3) && (n3 <=? 138))
                                  || (n3 =? 168) || (n3 =? 169) || (n3 =? 175))
                  || (n2 =? 129) && (n3 =? 159))%nat
              then skip_ws fuel' r3 else s
          | 227%nat, String c2 (String c3 r3) =>
              if ((nat_of_ascii c2 =? 128) && (nat_of_ascii c3 =? 128))%nat
              then skip_ws fuel' r3 else s
          | 239%nat, String c2 (String c3 r3) =>
              if ((nat_of_ascii c2 =? 187) && (nat_of_ascii c3 =? 191))%nat
              then skip_ws fuel' r3 else s
          | _, _ => s
          end
      | EmptyString => s
      end
  end.

Definition parseInt (s : string) : option Z :=
  match skip_ws (String.length s) s with
  | String "-" rest => Z.opp <$> digits None rest
  | String "+" rest => digits None rest
  | rest => digits None rest
  end.

End Lib.

(** ** The world the program runs in *)

Module Sys.
Import JS.

(** The request as the program builds it; [prompt] and [aspectRatio] carry
    whatever the caller supplied. *)
Record GeminiRequest : Type := {
  instances : list value;
  sampleCount : Z;
  aspectRatio : value
}.

(** One call of [fetch]: the URL and the request serialised into the body. *)
Record FetchCall : Type := {
  url : string;
  http_method : string;
  content_type : string;
  body : GeminiRequest
}.

(** The answer of the provider: its status and its body. The body is parsed
    into whatever JSON value it holds: the source casts the result of
    [JSON.parse] to [GeminiResponse] without checking it, so every property
    the program reads of it is read of an arbitrary value. *)
Record Response : Type := {
  status : Z;
  text : Text json
}.

(** [response.ok]. *)
Definition ok (r : Response) : bool := (200 <=? status r) && (status r <=? 299).

Inductive FetchOutcome : Type :=
  | Rejected (e : Error)
  | Responded (r : Response).

(** What the program cannot decide: its environment. [provider n c] answers
    the call [c] when [n] calls were made before; [writeFile_error] and
    [mkdir_error] say which paths the file system refuses; [random] is the
    stream of random bytes; [clock k] is the instant (milliseconds since the
    epoch) of the [k]-th reading of the clock and [utc_offset] the minutes
    local time is ahead of UTC at an instant; [dataDir] is the directory
    [envPaths] resolves. *)
Record Host : Type := {
  env : gmap string string;
  provider : nat → FetchCall → FetchOutcome;
  writeFile_error : string → option Error;
  mkdir_error : string → option Error;
  random : nat → Z;
  clock : nat → Z;
  utc_offset : Z → Z;
  dataDir : string
}.

Inductive Level : Type := info | error_level.

(** What the program changes. *)
Record State : Type := mkState {
  calls : list FetchCall;
  files : gmap string (list Byte.byte);
  dirs : gset string;
  drawn : nat;
  ticks : nat;
  stdout : list json;
  logs : list (Level * string)
}.

(** How a computation ends: with a value, with a thrown error (a rejected
    promise for an [async] function), or by [process.exit]. *)
Inductive Completion (A : Type) : Type :=
  | Normal (a : A)
  | Throw (e : Error)
  | Exit (exit_code : Z).
Arguments Normal {A} _.
Arguments Throw {A} _.
Arguments Exit {A} _.

Definition M (A : Type) : Type := Host → State → Completion A * State.

#[global] Instance M_ret : MRet M := λ A a _ st, (Normal a, st).

#[global] Instance M_bind : MBind M := λ A B f m h st,
  match m h st with
  | (Normal a, st') => f a h st'
  | (Throw e, st') => (Throw e, st')
  | (Exit c, st') => (Exit c, st')
  end.

Definition throw {A : Type} (e : Error) : M A := λ _ st, (Throw e, st).

Definition process_exit {A : Type} (c : Z) : M A := λ _ st, (Exit c, st).

(** [try { m } catch (e) { handler e }]. *)
Definition try_catch {A : Type} (m : M A) (handler : Error → M A) : M A := λ h st,
  match m h st with
  | (Throw e, st') => handler e h st'
  | r => r
  end.

Definition lift {A : Type} (r : Error + A) : M A :=
  match r with
  | inl e => throw e
  | inr a => mret a
  end.

Definition host : M Host := λ h st, (Normal h, st).

Definition winston (l : Level) (msg : string) : M unit := λ _ st,
  (Normal (), mkState (calls st) (files st) (dirs st) (drawn st) (ticks st)
                      (stdout st) (logs st ++ [(l, msg)])).

(** [process.env.NAME || fallback]. *)
Definition env_or (h : Host) (name fallback : string) : string :=
  match env h !! name with
  | Some v => if decide (v = "") then fallback else v
  | None => fallback
  end.

(** [!process.env.NAME]. *)
Definition env_missing (h : Host) (name : string) : bool :=
  match env h !! name with
  | Some v => bool_decide (v = "")
  | None => true
  end.

(** [await fetch(url, init)] followed by [await response.text()]. *)
Definition fetch (c : FetchCall) : M Response := λ h st,
  let st' := mkState (calls st ++ [c]) (files st) (dirs st) (drawn st) (ticks st)
                     (stdout st) (logs st) in
  match provider h (length (calls st)) c with
  | Rejected e => (Throw e, st')
  | Responded r => (Normal r, st')
  end.

(** [await fs.writeFile(path, data)]. A write the file system refuses leaves
    the files as they were: this is so when the file cannot be opened; a
    failure while writing (a full disk) can leave the file empty or cut
    short, which the embedding does not follow. *)
Definition writeFile (path : string) (data : list Byte.byte) : M unit := λ h st,
  match writeFile_error h path with
  | Some e => (Throw e, st)
  | None =>
      (Normal (), mkState (calls st) (<[path := data]> (files st)) (dirs st) (drawn st)
                          (ticks st) (stdout st) (logs st))
  end.

(** [await fs.mkdir(path, { recursive: true })]. *)
Definition mkdir (path : string) : M unit := λ h st,
  match mkdir_error h path with
  | Some e => (Throw e, st)
  | None =>
      (Normal (), mkState (calls st) (files st) ({[path]} ∪ dirs st) (drawn st)
                          (ticks st) (stdout st) (logs st))
  end.

(** [new Date()]: the instant of this reading of the clock. *)
Definition new_Date : M Z := λ h st,
  (Normal (clock h (ticks st)),
   mkState (calls st) (files st) (dirs st) (drawn st) (S (ticks st)) (stdout st) (logs st)).

(** [nanoid(size)]. *)
Definition nanoid (size : nat) : M string := λ h st,
  (Normal (Lib.nanoid_of ((λ i, random h (drawn st + i)%nat) <$> seq 0 size)),
   mkState (calls st) (files st) (dirs st) (drawn st + size)%nat (ticks st)
           (stdout st) (logs st)).

(** [app.listen(port, hostname)] of lines 460 to 462, as far as [main] sees
    it: Node checks the port at once and throws a [RangeError] for a port
    outside 0 to 65535 (the words are those of Node 18). Failures of binding
    (address in use, permission) come later as events of the server and lie
    outside the embedding. *)
Definition listen (port : Z) (hostname : string) : M unit := λ _ st,
  if (0 <=? port) && (port <=? 65535) then (Normal (), st)
  else (Throw (mkError "RangeError"
                 ("options.port should be >= 0 and < 65536. Received type number ("
                  +:+ pretty port +:+ ").")
                 (Some "ERR_SOCKET_BAD_PORT")), st).

(** [process.stdout.write(JSON.stringify(doc) + '\n')]: one line, kept as the
    document it carries. *)
Definition stdout_write (doc : json) : M unit := λ _ st,
  (Normal (), mkState (calls st) (files st) (dirs st) (drawn st) (ticks st)
                      (stdout st ++ [doc]) (logs st)).

End Sys.

(** ** The program *)

Module Server.
Import JS Sys.

Definition LF : string := String (ascii_of_nat 10) "".

Record ImageGenerationServer : Type := {
  resourcesPath : string;
  imageResourceServerAddr : string;
  serverPort : Z
}.

Definition SUPPORTED_ASPECT_RATIOS : list string :=
  ["1:1"; "3:4"; "4:3"; "9:16"; "16:9"].

Definition DEFAULT_BASE_URL : string := "https://generativelanguage.googleapis.com".

Definition NO_IMAGES : string :=
  "No images were generated. This might be due to the image not passing Google's safety review.".

Section Program.

(** The instruction text of [getInfo] (the template literal of lines 120 to
    261, trimmed) and Node's [Buffer.from(v, 'base64')], which gives bytes or
    throws; [v] is whatever the prediction holds as its payload. *)
Variable Imagen_prompt_guide : string.
Variable Buffer_from_base64 : value → Error + list Byte.byte.

(** [prompt.length], evaluated for the log record of line 279: only whether
    it throws matters, the number goes into log metadata. *)
Definition read_length (v : value) : M unit :=
  match v with
  | Undefined => throw (TypeError "Cannot read properties of undefined (reading 'length')")
  | Json JNull => throw (TypeError "Cannot read properties of null (reading 'length')")
  | Json _ => mret ()
  end.

(** The loop of lines 332 to 347 over the predictions still to be saved;
    [filenames] holds the names pushed so far. *)
Fixpoint save_predictions (imagesDir : string) (preds : list value)
    (filenames : list string) : M (list string) :=
  match preds with
  | [] => mret filenames
  | pred :: rest =>
      h ← host;
      now ← new_Date;
      let timestamp := Lib.formatDate (utc_offset h now) now in
      id ← nanoid 10;
      let filename := id +:+ "_" +:+ timestamp +:+ ".png" in
      let filePath := Lib.path_join imagesDir filename in
      try_catch
        (payload ← lift (Get pred "bytesBase64Encoded");
         imageData ← lift (Buffer_from_base64 payload);
         writeFile filePath imageData;;
         winston info "Successfully saved generated image.")
        (λ e,
         winston error_level
           ("Failed to decode base64 or write image to disk: " +:+ message e);;
         throw e);;
      save_predictions imagesDir rest (filenames ++ [filename])
  end.

Definition generateImageFromGemini (prompt aspectRatio : value) (resourcesPath : string)
    : M (list string) :=
  read_length prompt;;
  winston info "Generating image from Gemini";;
  h ← host;
  match env h !! "GEMINI_API_KEY" with
  | None => throw (new_Error "GEMINI_API_KEY environment variable not set")
  | Some apiKey =>
  if decide (apiKey = "")
  then throw (new_Error "GEMINI_API_KEY environment variable not set")
  else
  let request :=
    {| instances := [prompt]; sampleCount := 1; aspectRatio := aspectRatio |} in
  winston info "Sending request to Gemini";;
  let baseUrl := env_or h "BASE_URL" DEFAULT_BASE_URL in
  let url := baseUrl +:+ "/v1beta/models/imagen-3.0-generate-002:predict?key=" +:+ apiKey in
  response ← fetch {| url := url; http_method := "POST";
                      content_type := "application/json"; body := request |};
  let responseText := raw (text response) in
  if negb (ok response)
  then
    winston error_level "Failed to send request to Gemini";;
    throw (new_Error ("Gemini API request failed with status "
                      +:+ pretty (status response) +:+ ": " +:+ responseText))
  else
  geminiResponse ← try_catch (lift (JSON_parse (text response)))
    (λ e,
     winston error_level "Failed to parse Gemini response";;
     throw (new_Error ("Failed to parse Gemini response: " +:+ message e
                       +:+ ". The response was: " +:+ responseText)));
  err ← lift (Get (Json geminiResponse) "error");
  if truthy err
  then
    winston error_level "Gemini API returned an error";;
    msg ← lift (Get err "message");
    shown ← lift (ToString msg);
    throw (new_Error ("Gemini API Error: " +:+ shown))
  else
  field ← lift (Get (Json geminiResponse) "predictions");
  let predictions := if nullish field then Json (JArr []) else field in
  if length_is_0 predictions
  then
    winston error_level
      "No images were generated by Gemini. This might be due to safety filters.";;
    throw (new_Error NO_IMAGES)
  else
  let imagesDir := Lib.path_join resourcesPath "images" in
  preds ← lift (iterate "predictions" predictions);
  save_predictions imagesDir preds []
  end.

Definition image_url (self : ImageGenerationServer) (filename : string) : string :=
  "http://" +:+ imageResourceServerAddr self +:+ ":" +:+ pretty (serverPort self)
  +:+ "/images/" +:+ filename.

Definition generate_image (self : ImageGenerationServer) (args : value) : M string :=
  winston info "Received image generation request";;
  aspect_ratio ← lift (Get args "aspect_ratio");
  if truthy aspect_ratio && negb (includes SUPPORTED_ASPECT_RATIOS aspect_ratio)
  then
    shown ← lift (ToString aspect_ratio);
    let errorMsg := "Invalid aspect ratio: " +:+ shown +:+ ", supported values are: "
                    +:+ join ", " SUPPORTED_ASPECT_RATIOS in
    winston error_level errorMsg;;
    mret errorMsg
  else
    try_catch
      (prompt ← lift (Get args "prompt");
       filenames ← generateImageFromGemini prompt aspect_ratio (resourcesPath self);
       let urls := join LF (image_url self <$> filenames) in
       winston info ("Image generation successful. " +:+ pretty (length filenames)
                     +:+ " image(s) created.");;
       mret urls)
      (λ e,
       winston error_level ("Error generating image: " +:+ message e);;
       mret ("Error generating image: " +:+ message e)).

Definition getInfo (self : ImageGenerationServer) : json :=
  JObj [("server_info", JObj [("name", JStr "imagen3-mcp"); ("version", JStr "0.1.0")]);
        ("instructions", JStr Imagen_prompt_guide);
        ("capabilities", JObj [("tools", JBool true)])].

(** [const { id, method, params } = request]: reading the first property of
    [null] is what throws. *)
Definition destructure (request : value) : M (value * value * value) :=
  match request with
  | Undefined =>
      throw (TypeError "Cannot destructure property 'id' of 'request' as it is undefined.")
  | Json JNull =>
      throw (TypeError "Cannot destructure property 'id' of 'request' as it is null.")
  | _ =>
      id ← lift (Get request "id");
      method ← lift (Get request "method");
      params ← lift (Get request "params");
      mret (id, method, params)
  end.

(** The handler of [rl.on('line', ...)]; a [Throw] out of it is the rejection
    of the promise the [async] handler returns, which nothing awaits. *)
Definition on_line (service : ImageGenerationServer) (line : Text json) : M unit :=
  try_catch
    (request ← lift (JSON_parse line);
     '(id, method, params) ← destructure (Json request);
     result ← match method with
              | Json (JStr m) =>
                  if decide (m = "get_info") then mret (getInfo service)
                  else if decide (m = "generate_image")
                  then text ← generate_image service params; mret (JStr text)
                  else throw (new_Error ("Unknown method: " +:+ m))
              | _ =>
                  shown ← lift (ToString method);
                  throw (new_Error ("Unknown method: " +:+ shown))
              end;
     stdout_write (JSON_stringify [("id", id); ("result", Json result)]))
    (λ e,
     winston error_level ("Error processing MCP request: " +:+ message e);;
     request ← lift (JSON_parse line);
     id ← lift (Get (Json request) "id");
     stdout_write
       (JSON_stringify [("id", id);
                        ("error", Json (JObj [("message", JStr (message e))]))])).

(** [ensureDir]. *)
Definition ensureDir (dirPath purpose : string) : M unit :=
  try_catch (mkdir dirPath)
    (λ e,
     if decide (code e = Some "EEXIST") then mret ()
     else throw (new_Error ("Could not create " +:+ purpose +:+ " directory at "
                            +:+ dirPath +:+ ": " +:+ message e))).

(** What [main] has set up once it has registered the line handler. Of the
    Express application of lines 443 to 462 [main] itself runs the [listen]
    call; what the application serves lies outside [main]. *)
Record Serving : Type := {
  service : ImageGenerationServer;
  listenAddr : string;
  imagesDir : string
}.

Definition main : M Serving :=
  h ← host;
  let logDir := Lib.path_join (dataDir h) "logs" in
  let resourcesPath := Lib.path_join (dataDir h) "artifacts" in
  let imagesDir := Lib.path_join resourcesPath "images" in
  ensureDir logDir "log";;
  winston info ("Tracing initialized. Logging to console and " +:+ logDir);;
  try_catch
    (ensureDir resourcesPath "resources";;
     winston info "Created resources directory.";;
     ensureDir imagesDir "images";;
     winston info "Created images directory.")
    (λ e,
     winston error_level ("Failed to ensure resources directory: " +:+ message e);;
     process_exit 1);;
  let imageResourceServerAddr := env_or h "IMAGE_RESOURCE_SERVER_ADDR" "127.0.0.1" in
  let serverPort := Lib.parseInt (env_or h "SERVER_PORT" "9981") in
  let listenAddr := env_or h "SERVER_LISTEN_ADDR" "127.0.0.1" in
  match serverPort with
  | None =>
      winston error_level
        ("Invalid SERVER_PORT: " +:+ default "undefined" (env h !! "SERVER_PORT"));;
      process_exit 1
  | Some port =>
  if env_missing h "GEMINI_API_KEY"
  then
    winston error_level
      "GEMINI_API_KEY environment variable is not set. Image generation will fail.";;
    process_exit 1
  else
    winston info "GEMINI_API_KEY found.";;
    winston info "Serving images from directory";;
    listen port listenAddr;;
    winston info "Starting MCP server...";;
    mret {| service := {| resourcesPath := resourcesPath;
                          imageResourceServerAddr := imageResourceServerAddr;
                          serverPort := port |};
            listenAddr := listenAddr;
            imagesDir := imagesDir |}
  end.

(** [main().catch(err => { winston.error(...); process.exit(1); })]. *)
Definition start : M Serving :=
  try_catch main
    (λ err,
     winston error_level "Unhandled error in main function:";;
     process_exit 1).

End Program.

End Server.

(** ** Vocabulary of the specification *)

Module Spec.
Import JS Sys Server.

(** Between [st] and [st'] the program called the provider and the call was
    answered by [out]. *)
Definition answered (h : Host) (st st' : State) (out : FetchOutcome) : Prop :=
  ∃ i c, drop (length (calls st)) (calls st') !! i = Some c
         ∧ provider h (length (calls st) + i) c = out.

(** A response the program goes on to save: success status, a body that
    parses to a value with no error in it (none, or one that counts as
    false) and with the list [preds] as its predictions. *)
Definition successful (resp : Response) (preds : list json) : Prop :=
  ok resp = true
  ∧ ∃ body err, parsed (text resp) = inr body
      ∧ Get (Json body) "error" = inr err ∧ truthy err = false
      ∧ Get (Json body) "predictions" = inr (Json (JArr preds)).



(** The prediction [pred] carries a payload that [Buffer.from] turns into the
    bytes [data]. *)
Definition decodes (decode : value → Error + list Byte.byte) (pred : value)
    (data : list Byte.byte) : Prop :=
  ∃ payload, Get pred "bytesBase64Encoded" = inr payload ∧ decode payload = inr data.

Definition all_chars (P : ascii → bool) (s : string) : bool :=
  forallb P (list_ascii_of_string s).

Definition is_digit (c : ascii) : bool := bool_decide (is_Some (Lib.digit_of c)).

(** The name of an artifact: an identifier made of ten bytes of the random
    stream (ten URL-safe symbols), an underscore, the stamp of some reading
    [k] of the clock, and the extension. [stamp] says how an instant is
    printed. *)
Definition artifact_name (stamp : Z → string) (h : Host) (filename : string) : Prop :=
  ∃ id n k, filename = id +:+ "_" +:+ stamp (clock h k) +:+ ".png"
            ∧ id = Lib.nanoid_of ((λ i, random h (n + i)%nat) <$> seq 0 10)
            ∧ String.length id = 10%nat
            ∧ all_chars Lib.url_safe id = true.

(** The stamp the program prints: the local time of the host. *)
Definition local_stamp (h : Host) (ms : Z) : string :=
  Lib.formatDate (utc_offset h ms) ms.

(** [t1] occurs inside [t2]. *)
Definition contains (t2 t1 : string) : Prop := ∃ before after, t2 = before +:+ t1 +:+ after.



(** A port value that is an integer: an optional sign and then digits only. *)
Definition is_integer_literal (s : string) : bool :=
  match s with
  | String "-" rest | String "+" rest =>
      negb (bool_decide (rest = "")) && all_chars is_digit rest
  | _ => negb (bool_decide (s = "")) && all_chars is_digit s
  end.

(** The messages of the failures of the provider call, as the program words
    them. *)
Definition http_failure (status : Z) (body : string) : string :=
  "Gemini API request failed with status " +:+ pretty status +:+ ": " +:+ body.

Definition parse_failure (reason body : string) : string :=
  "Failed to parse Gemini response: " +:+ reason +:+ ". The response was: " +:+ body.

(** The error text of an unsupported aspect ratio printed as [shown]. *)
Definition invalid_aspect_ratio (shown : string) : string :=
  "Invalid aspect ratio: " +:+ shown
  +:+ ", supported values are: 1:1, 3:4, 4:3, 9:16, 16:9".

(** [w] decimal digits. *)
Definition is_digits (w : nat) (s : string) : bool :=
  (String.length s =? w)%nat && all_chars is_digit s.

(** A value that has properties to read: anything but [undefined] and [null]. *)
Definition defined (v : value) : bool :=
  match v with Undefined | Json JNull => false | _ => true end.

(** An aspect ratio that passes the guard of line 85. *)
Definition accepted (ar : value) : bool :=
  negb (truthy ar && negb (includes SUPPORTED_ASPECT_RATIOS ar)).

(** The call [generateImageFromGemini] sends for a prompt and an aspect
    ratio when the key is [apiKey]. *)
Definition call_of (h : Host) (apiKey : string) (prompt aspectRatio : value) : FetchCall :=
  {| url := env_or h "BASE_URL" DEFAULT_BASE_URL
            +:+ "/v1beta/models/imagen-3.0-generate-002:predict?key=" +:+ apiKey;
     http_method := "POST";
     content_type := "application/json";
     body := {| instances := [prompt]; sampleCount := 1; aspectRatio := aspectRatio |} |}.

(** States along a run: after one more log record, after the first record of
    [generate_image], after [generateImageFromGemini] has sent [c]. *)
Definition logged (st : State) (l : Level) (msg : string) : State :=
  mkState (calls st) (files st) (dirs st) (drawn st) (ticks st) (stdout st)
    (logs st ++ [(l, msg)]).

Definition received (st : State) : State :=
  logged st info "Received image generation request".

Definition sent (st : State) (c : FetchCall) : State :=
  mkState (calls st ++ [c]) (files st) (dirs st) (drawn st) (ticks st) (stdout st)
    (logs st ++ [(info, "Generating image from Gemini"); (info, "Sending request to Gemini")]).

(** A file of decoded bytes under [dir] whose name is an artifact name. *)
Definition artifact_under (decode : value → Error + list Byte.byte) (dir : string)
    (h : Host) (path : string) (data : list Byte.byte) : Prop :=
  ∃ filename payload, path = Lib.path_join dir filename
    ∧ artifact_name (local_stamp h) h filename ∧ decode payload = inr data.

(** The last record of the log is an error. *)
Definition ends_in_error (st : State) : Prop :=
  ∃ earlier msg, logs st = earlier ++ [(error_level, msg)].

(** Properties of computations: [f] of the state is left as it was; the
    computation never ends the process; every file it leaves was there before
    or satisfies [Q]. *)
Definition preserves {A X : Type} (f : State → X) (m : M A) : Prop :=
  ∀ h st, f (m h st).2 = f st.

Definition no_exit {A : Type} (m : M A) : Prop :=
  ∀ h st c, (m h st).1 ≠ Exit c.

Definition writes_only (Q : Host → string → list Byte.byte → Prop) {A : Type} (m : M A)
    : Prop :=
  ∀ h st path data, files (m h st).2 !! path = Some data →
    files st !! path = Some data ∨ Q h path data.

End Spec.

(** ** Concrete hosts and inputs *)

Module Fixtures.
Import JS Sys Server.

(** A stand-in for [Buffer.from(v, 'base64')] to run the program with. A
    string is decoded (standard and URL-safe alphabets, other characters
    skipped, padding ends the input); [undefined] is refused with Node's
    [TypeError], and so is here every other value that is no string (Node
    words the refusal after the value, and takes an array or an array-like
    object as bytes: no run below hands it one). *)
Definition sextet (c : ascii) : option Z :=
  let n := Z.of_nat (nat_of_ascii c) in
  if (65 <=? n) && (n <=? 90) then Some (n - 65)
  else if (97 <=? n) && (n <=? 122) then Some (n - 71)
  else if (48 <=? n) && (n <=? 57) then Some (n + 4)
  else if (n =? 43) || (n =? 45) then Some 62
  else if (n =? 47) || (n =? 95) then Some 63
  else None.

Fixpoint sextets (s : string) : list Z :=
  match s with
  | EmptyString => []
  | String c rest =>
      if bool_decide (c = "="%char) then []
      else match sextet c with
           | Some v => v :: sextets rest
           | None => sextets rest
           end
  end.

Fixpoint octets (l : list Z) : list Z :=
  match l with
  | a :: b :: c :: d :: rest =>
      (a * 4 + b / 16) :: (b mod 16 * 16 + c / 4) :: (c mod 4 * 64 + d) :: octets rest
  | [a; b; c] => [a * 4 + b / 16; b mod 16 * 16 + c / 4]
  | [a; b] => [a * 4 + b / 16]
  | _ => []
  end.

Definition base64_bytes (s : string) : list Byte.byte :=
  (λ z, byte_of_ascii (ascii_of_N (Z.to_N z))) <$> octets (sextets s).

Definition NOT_A_STRING : string :=
  "The first argument must be of type string or an instance of Buffer, ArrayBuffer, or Array or an Array-like Object. Received undefined".

Definition base64_decode (v : value) : Error + list Byte.byte :=
  match v with
  | Json (JStr s) => inr (base64_bytes s)
  | _ => inl (mkError "TypeError" NOT_A_STRING (Some "ERR_INVALID_ARG_TYPE"))
  end.

Definition guide : string := "Use the generate_image tool to create images from text descriptions.".

Definition st0 : State := mkState [] ∅ ∅ 0 0 [] [].

Definition srv : ImageGenerationServer :=
  {| resourcesPath := "/data/artifacts";
     imageResourceServerAddr := "127.0.0.1";
     serverPort := 9981 |}.

Definition quoted (s : string) : string :=
  String (ascii_of_nat 34) s +:+ String (ascii_of_nat 34) "".

(** A prediction with the payload [payload]. *)
Definition png (payload : string) : json :=
  JObj [("mimeType", JStr "image/png"); ("bytesBase64Encoded", JStr payload)].

(** Three answers of the provider: one image, no image, and a failure whose
    body is the document {"message":"boom"}. *)
Definition one_image : Response :=
  {| status := 200;
     text := mkText
       ("{" +:+ quoted "predictions" +:+ ":[{" +:+ quoted "mimeType" +:+ ":"
        +:+ quoted "image/png" +:+ "," +:+ quoted "bytesBase64Encoded" +:+ ":"
        +:+ quoted "aGk=" +:+ "}]}")
       (inr (JObj [("predictions", JArr [png "aGk="])])) |}.


Definition boom : string := "{" +:+ quoted "message" +:+ ":" +:+ quoted "boom" +:+ "}".

Definition failure_500 : Response :=
  {| status := 500;
     text := mkText boom (inr (JObj [("message", JStr "boom")])) |}.

(** A host with the clock at the epoch and local time one hour ahead of UTC;
    [vars] is the environment, [answer] what the provider says, [disk] which
    writes the file system refuses. *)
Definition host_with (vars : gmap string string) (answer : FetchOutcome)
    (disk : string → option Error) : Host :=
  {| env := vars;
     provider := λ _ _, answer;
     writeFile_error := disk;
     mkdir_error := λ _, None;
     random := λ i, Z.of_nat i;
     clock := λ _, 0;
     utc_offset := λ _, 60;
     dataDir := "/data" |}.

Definition key_only : gmap string string := {[ "GEMINI_API_KEY" := "k" ]}.

Definition working_disk : string → option Error := λ _, None.

Definition full_disk : string → option Error :=
  λ _, Some (mkError "Error" "ENOSPC: no space left on device, write" (Some "ENOSPC")).

Definition h_one : Host := host_with key_only (Responded one_image) working_disk.

Definition h_full : Host := host_with key_only (Responded one_image) full_disk.

Definition h_500 : Host := host_with key_only (Responded failure_500) working_disk.


(** Two more answers: one prediction that lacks its payload, and an
    unavailable provider whose body has an empty prediction list. *)
Definition bare_image : Response :=
  {| status := 200;
     text := mkText
       ("{" +:+ quoted "predictions" +:+ ":[{" +:+ quoted "mimeType" +:+ ":"
        +:+ quoted "image/png" +:+ "}]}")
       (inr (JObj [("predictions", JArr [JObj [("mimeType", JStr "image/png")]])])) |}.


Definition h_bare : Host := host_with key_only (Responded bare_image) working_disk.


Definition h_port (port : string) : Host :=
  host_with (<[ "SERVER_PORT" := port ]> key_only) (Rejected (TypeError "fetch failed"))
            working_disk.

Definition h_no_key : Host :=
  host_with ∅ (Rejected (TypeError "fetch failed")) working_disk.

Definition args_of (prompt aspect_ratio : string) : value :=
  Json (JObj [("prompt", JStr prompt); ("aspect_ratio", JStr aspect_ratio)]).

(** Arguments whose aspect_ratio is the object {"toString":1}. *)
Definition args_hiding_toString : value :=
  Json (JObj [("prompt", JStr "a red cube");
              ("aspect_ratio", JObj [("toString", JNum 1)])]).

(** The request line {"id":<id>,"method":"<method>"}. *)
Definition request (id : Z) (method : string) : json :=
  JObj [("id", JNum id); ("method", JStr method)].

Definition request_line (id : Z) (method : string) : Text json :=
  mkText ("{" +:+ quoted "id" +:+ ":" +:+ pretty id +:+ "," +:+ quoted "method" +:+ ":"
          +:+ quoted method +:+ "}")
         (inr (request id method)).

Definition null_line : Text json := mkText "null" (inr JNull).

Definition malformed_line : Text json := mkText "not json" (inl "Unexpected token 'o'").

End Fixtures.

(** ** The listing of the images directory *)

Module Http.
Import JS Sys Server.

(** A directory entry as [fs.readdir(dir, { withFileTypes: true })] gives it. *)
Record Dirent : Type := {
  dirent_name : string;
  isFile : bool
}.

Fixpoint strip_prefix (p s : string) : option string :=
  match p, s with
  | EmptyString, _ => Some s
  | String a p', String b s' => if decide (a = b) then strip_prefix p' s' else None
  | String _ _, EmptyString => None
  end.

Definition has_slash (s : string) : bool :=
  existsb (λ c, bool_decide (c = "/"%char)) (list_ascii_of_string s).

(** The name under which [path] shows in the listing of [dir]: [path] must be
    [dir], a slash and one plain segment. *)
Definition entry_name (dir path : string) : option string :=
  match strip_prefix (dir +:+ "/") path with
  | Some name => if bool_decide (name = "") || has_slash name then None else Some name
  | None => None
  end.

(** The entries of [dir] in the file system of the state: the regular files
    and the directories directly under it. The order is the file system's
    own; here files come in the order of the map, then directories. *)
Definition entries (dir : string) (st : State) : list Dirent :=
  omap (λ kv, (λ name, {| dirent_name := name; isFile := true |}) <$> entry_name dir kv.1)
       (map_to_list (files st))
  ++ omap (λ d, (λ name, {| dirent_name := name; isFile := false |}) <$> entry_name dir d)
          (elements (dirs st)).

(** [await fs.readdir(dir, { withFileTypes: true })]; [readdir_error] says
    which directories the file system refuses to read. *)
Definition readdir (readdir_error : string → option Error) (dir : string)
    : M (list Dirent) := λ _ st,
  match readdir_error dir with
  | Some e => (Throw e, st)
  | None => (Normal (entries dir st), st)
  end.

Definition listImages (readdir_error : string → option Error) (resourcesPath : string)
    : M (list string) :=
  let imagesDir := Lib.path_join resourcesPath "images" in
  entries ← readdir readdir_error imagesDir;
  mret (dirent_name <$> filter (λ dirent, isFile dirent = true) entries).

(** What a route hands to Express: [res.json(doc)] or
    [res.status(code).send(text)]. *)
Inductive Reply : Type :=
  | SendJson (status : Z) (doc : json)
  | SendText (status : Z) (text : string).

(** The handler of [app.get('/list-images', ...)]. *)
Definition list_images_route (readdir_error : string → option Error)
    (resourcesPath : string) : M Reply :=
  winston info "Received request to list images.";;
  try_catch
    (imageList ← listImages readdir_error resourcesPath;
     mret (SendJson 200 (JArr (JStr <$> imageList))))
    (λ e,
     winston error_level ("Failed to list images: " +:+ message e);;
     mret (SendText 500 "Failed to list images.")).

End Http.

(** ** Vocabulary of the further properties *)

Module Terms.
Import JS Sys Server Spec Http.

(** The filename the loop of [generateImageFromGemini] makes from the ten
    random bytes at position [d] of the stream and the reading [t] of the
    clock. *)
Definition name_of (h : Host) (d t : nat) : string :=
  Lib.nanoid_of ((λ i, random h (d + i)%nat) <$> seq 0 10) +:+ "_"
  +:+ Lib.formatDate (utc_offset h (clock h t)) (clock h t) +:+ ".png".

(** The filename of the [k]-th prediction of a response handled from state
    [st]: every file takes ten bytes and one reading of the clock. *)
Definition name_at (h : Host) (st : State) (k : nat) : string :=
  name_of h (drawn st + 10 * k) (ticks st + k).

(** The files after the images [datas] were saved under [dir], one after the
    other, from position [d] of the stream and reading [t] of the clock. *)
Fixpoint store (dir : string) (h : Host) (d t : nat) (datas : list (list Byte.byte))
    (m : gmap string (list Byte.byte)) : gmap string (list Byte.byte) :=
  match datas with
  | [] => m
  | data :: rest =>
      store dir h (d + 10) (S t) rest (<[Lib.path_join dir (name_of h d t) := data]> m)
  end.

(** The state once the loop has read the clock and drawn the identifier of a
    file. *)
Definition advance (st : State) : State :=
  mkState (calls st) (files st) (dirs st) (drawn st + 10)%nat (S (ticks st)) (stdout st)
          (logs st).

(** Two relations between the files before and after: every path outside [P]
    holds what it held; every path that held a file still holds one. *)
Definition same_outside (P : string → Prop) (m m' : gmap string (list Byte.byte)) : Prop :=
  ∀ path, ¬ P path → m' !! path = m !! path.

Definition kept (m m' : gmap string (list Byte.byte)) : Prop :=
  ∀ path, is_Some (m !! path) → is_Some (m' !! path).

(** A computation whose every run relates the files before to the files
    after by [R]. *)
Definition files_related (R : relation (gmap string (list Byte.byte))) {A : Type}
    (m : M A) : Prop :=
  ∀ h st, R (files st) (files (m h st).2).

Definition touches_only (P : string → Prop) {A : Type} (m : M A) : Prop :=
  files_related (same_outside P) m.

Definition keeps_files {A : Type} (m : M A) : Prop := files_related kept m.

(** [path] lies in [dir]. *)
Definition under (dir path : string) : Prop := ∃ name, path = dir +:+ "/" +:+ name.

(** No character of [s] is a slash. *)
Definition plain (s : string) : Prop := has_slash s = false.

End Terms.

(** ** The parts of the line handler *)

Module Parts.
Import JS Sys Server Spec.
(** The parts of the line handler: the catch block, the choice of the method
    and the answer. *)
Definition report_failure (line : Text json) (e : Error) : M unit :=
  winston error_level ("Error processing MCP request: " +:+ message e);;
  request ← lift (JSON_parse line);
  id ← lift (Get (Json request) "id");
  stdout_write
    (JSON_stringify [("id", id);
                     ("error", Json (JObj [("message", JStr (message e))]))]).

Definition dispatch (guide : string) (b64 : value → Error + list Byte.byte)
    (service : ImageGenerationServer) (method params : value) : M json :=
  match method with
  | Json (JStr m) =>
      if decide (m = "get_info") then mret (getInfo guide service)
      else if decide (m = "generate_image")
      then text ← generate_image b64 service params; mret (JStr text)
      else throw (new_Error ("Unknown method: " +:+ m))
  | _ =>
      shown ← lift (ToString method);
      throw (new_Error ("Unknown method: " +:+ shown))
  end.

Definition respond (guide : string) (b64 : value → Error + list Byte.byte)
    (service : ImageGenerationServer) (id method params : value) : M unit :=
  result ← dispatch guide b64 service method params;
  stdout_write (JSON_stringify [("id", id); ("result", Json result)]).

(** The file system lets [ensureDir] pass at [dir]: it makes the directory or
    says it exists. *)
Definition tolerated (h : Host) (dir : string) : Prop :=
  ∀ e, mkdir_error h dir = Some e → code e = Some "EEXIST".

(** The three directories of startup. *)
Definition logDir (h : Host) : string := Lib.path_join (dataDir h) "logs".
Definition artifactsDir (h : Host) : string := Lib.path_join (dataDir h) "artifacts".
Definition artifactImagesDir (h : Host) : string := Lib.path_join (artifactsDir h) "images".

(** The state after one more line on the output stream. *)
Definition written (st : State) (doc : json) : State :=
  mkState (calls st) (files st) (dirs st) (drawn st) (ticks st) (stdout st ++ [doc]) (logs st).

End Parts.

(** ** Further hosts and answers *)

Module Scenes.
Import JS Sys Server Spec Http Terms Fixtures.

(** Where the server keeps the image called [name]. *)
Definition image_path (self : ImageGenerationServer) (name : string) : string :=
  Lib.path_join (Lib.path_join (resourcesPath self) "images") name.

(** Further answers of the provider: two images; an error object under a
    success status; a page that is not JSON. *)
Definition two_images : Response :=
  {| status := 200;
     text := mkText
       ("{" +:+ quoted "predictions" +:+ ":[{" +:+ quoted "bytesBase64Encoded" +:+ ":"
        +:+ quoted "aGk=" +:+ "},{" +:+ quoted "bytesBase64Encoded" +:+ ":"
        +:+ quoted "eW8=" +:+ "}]}")
       (inr (JObj [("predictions",
                    JArr [JObj [("bytesBase64Encoded", JStr "aGk=")];
                          JObj [("bytesBase64Encoded", JStr "eW8=")]])])) |}.

Definition quota_error : Response :=
  {| status := 200;
     text := mkText
       ("{" +:+ quoted "error" +:+ ":{" +:+ quoted "message" +:+ ":"
        +:+ quoted "quota exceeded" +:+ "}}")
       (inr (JObj [("error", JObj [("message", JStr "quota exceeded")])])) |}.

Definition html_page : Response :=
  {| status := 200;
     text := mkText "<html>" (inl "Unexpected token '<'") |}.

(** A disk on which the second image of the first request cannot be
    opened. *)
Definition second_refused : string → option Error := λ path,
  if decide (path = "/data/artifacts/images/6T198340PX_19700101010000.png")
  then Some (mkError "Error" ("EACCES: permission denied, open '" +:+ path +:+ "'")
                     (Some "EACCES"))
  else None.

Definition h_two : Host := host_with key_only (Responded two_images) working_disk.

Definition h_second_refused : Host :=
  host_with key_only (Responded two_images) second_refused.

Definition h_quota : Host := host_with key_only (Responded quota_error) working_disk.

Definition h_html : Host := host_with key_only (Responded html_page) working_disk.

(** A data directory in which nothing can be made. *)
Definition h_readonly : Host :=
  {| env := key_only;
     provider := λ _ _, Rejected (TypeError "fetch failed");
     writeFile_error := working_disk;
     mkdir_error := λ path,
       if decide (path = "/data/artifacts")
       then Some (mkError "Error" "EACCES: permission denied, mkdir '/data/artifacts'"
                          (Some "EACCES"))
       else None;
     random := λ i, Z.of_nat i;
     clock := λ _, 0;
     utc_offset := λ _, 60;
     dataDir := "/data" |}.

(** The line of a request for an image, and a line that is a number. *)
Definition generate_request : json :=
  JObj [("id", JNum 1); ("method", JStr "generate_image");
        ("params", JObj [("prompt", JStr "a red cube"); ("aspect_ratio", JStr "16:9")])].

Definition generate_line : Text json :=
  mkText ("{" +:+ quoted "id" +:+ ":1," +:+ quoted "method" +:+ ":"
          +:+ quoted "generate_image" +:+ "," +:+ quoted "params" +:+ ":{"
          +:+ quoted "prompt" +:+ ":" +:+ quoted "a red cube" +:+ ","
          +:+ quoted "aspect_ratio" +:+ ":" +:+ quoted "16:9" +:+ "}}")
         (inr generate_request).

Definition number_line : Text json := mkText "42" (inr (JNum 42)).


Definition h_down : Host :=
  host_with key_only (Rejected (TypeError "fetch failed")) working_disk.

End Scenes.

(** ** Text and time *)

Module Text.
Import Spec.

Lemma string_cons_app x (a b : string) : String x a +:+ b = String x (a +:+ b).
Proof. reflexivity. Qed.

Lemma append_assoc (a b c : string) : (a +:+ b) +:+ c = a +:+ b +:+ c.
Proof. induction a as [|x a IH]; [done|]. by rewrite !string_cons_app, IH. Qed.

Lemma append_nil_r (a : string) : a +:+ "" = a.
Proof. induction a as [|x a IH]; [done|]. by rewrite string_cons_app, IH. Qed.

Lemma length_string_of_list_ascii l : String.length (string_of_list_ascii l) = length l.
Proof. induction l as [|x l IH]; simpl; [done|]. by rewrite IH. Qed.

Lemma is_digits_app a b s t :
  is_digits a s = true → is_digits b t = true → is_digits (a + b) (s +:+ t) = true.
Proof.
  unfold is_digits, all_chars. revert a.
  induction s as [|c s IH]; intros a.
  - destruct a; [|done]. intros _. done.
  - destruct a as [|a]; [done|]. rewrite string_cons_app. simpl.
    intros [Hl [Hc Hs]%andb_prop]%andb_prop Ht.
    rewrite Hc. simpl. apply (IH a); [|done]. by rewrite Hl, Hs.
Qed.

(** A check that holds on every number below [n], by running it. *)
Lemma bounded_check (P : Z → bool) (n : Z) :
  forallb (λ k, P (Z.of_nat k)) (seq 0 (Z.to_nat n)) = true →
  ∀ z, 0 <= z < n → P z = true.
Proof.
  intros H z Hz. rewrite forallb_forall in H.
  specialize (H (Z.to_nat z)). rewrite Z2Nat.id in H by lia.
  apply H, in_seq. lia.
Qed.

Lemma addLeadingZeros_2 n : 0 <= n < 100 → is_digits 2 (Lib.addLeadingZeros n 2) = true.
Proof.
  apply (bounded_check (λ z, is_digits 2 (Lib.addLeadingZeros z 2)) 100). by vm_compute.
Qed.

Lemma addLeadingZeros_4 n : 0 <= n < 10000 → is_digits 4 (Lib.addLeadingZeros n 4) = true.
Proof.
  apply (bounded_check (λ z, is_digits 4 (Lib.addLeadingZeros z 4)) 10000). by vm_compute.
Qed.

(** From 1970-01-01 to 9999-12-31 the civil date has a four-digit year, a
    month and a day of the month. *)
Lemma civil_from_days_range days :
  0 <= days < 2932897 →
  let '(y, m, d) := Lib.civil_from_days days in
  1970 <= y <= 9999 ∧ 1 <= m <= 12 ∧ 1 <= d <= 31.
Proof.
  intros Hd. unfold Lib.civil_from_days.
  set (z := days + 719468).
  set (era := z / 146097).
  set (doe := z - era * 146097).
  assert (0 <= doe < 146097) as Hdoe by (subst doe era; Z.div_mod_to_equations; lia).
  assert (4 <= era <= 24) as Hera by (subst era z; Z.div_mod_to_equations; lia).
  set (yoe := (doe - doe / 1460 + doe / 36524 - doe / 146096) / 365).
  assert (0 <= yoe <= 399) as Hyoe by (subst yoe; Z.div_mod_to_equations; lia).
  set (doy := doe - (365 * yoe + yoe / 4 - yoe / 100)).
  assert (0 <= doy <= 365) as Hdoy by (subst doy yoe; Z.div_mod_to_equations; lia).
  set (mp := (5 * doy + 2) / 153).
  assert (0 <= mp <= 11) as Hmp by (subst mp; Z.div_mod_to_equations; lia).
  set (d := doy - (153 * mp + 2) / 5 + 1).
  assert (1 <= d <= 31) as Hday by (subst d mp; Z.div_mod_to_equations; lia).
  assert (era = 24 → yoe = 399 → doy <= 305) as Hlast.
  { intros He Hy. subst doy. rewrite Hy.
    change (399 / 4) with 99. change (399 / 100) with 3.
    subst doe. rewrite He. subst z. lia. }
  assert (era = 4 → yoe >= 369) as Hfirst.
  { intros He. subst yoe doe. rewrite He. subst z. Z.div_mod_to_equations. lia. }
  assert (era = 4 → yoe = 369 → doy >= 306) as Hfirst'.
  { intros He Hy. subst doy. rewrite Hy.
    change (369 / 4) with 92. change (369 / 100) with 3.
    subst doe. rewrite He. subst z. lia. }
  assert (doy <= 305 → mp <= 9) as Hmp1 by (intros; subst mp; Z.div_mod_to_equations; lia).
  assert (doy >= 306 → mp >= 10) as Hmp2 by (intros; subst mp; Z.div_mod_to_equations; lia).
  destruct (mp <? 10) eqn:E1; [apply Z.ltb_lt in E1|apply Z.ltb_ge in E1].
  - destruct (mp + 3 <=? 2) eqn:E2; [apply Z.leb_le in E2; lia|]. lia.
  - destruct (mp - 9 <=? 2) eqn:E2; [|apply Z.leb_gt in E2; lia]. lia.
Qed.

(** A wall clock between 1970 and 9999 prints as fourteen digits. *)
Lemma stamp_digits secs :
  0 <= secs < 253402300800 → is_digits 14 (Lib.yyyyMMddHHmmss secs) = true.
Proof.
  intros Hs. unfold Lib.yyyyMMddHHmmss.
  pose proof (civil_from_days_range (secs / 86400)) as Hc.
  destruct (Lib.civil_from_days (secs / 86400)) as [[y m] d].
  destruct Hc as (Hy & Hm & Hd); [Z.div_mod_to_equations; lia|].
  assert ((0 <? y) = true) as -> by (apply Z.ltb_lt; lia).
  change 14%nat with (4 + (2 + (2 + (2 + (2 + 2)))))%nat.
  repeat apply is_digits_app;
    first [apply addLeadingZeros_4 | apply addLeadingZeros_2];
    Z.div_mod_to_equations; lia.
Qed.

Lemma symbol_url_safe b : Lib.url_safe (Lib.symbol b) = true.
Proof.
  unfold Lib.symbol.
  assert (Z.to_nat (Z.land b 63) < 64)%nat as Hlt.
  { change 63 with (Z.ones 6). rewrite Z.land_ones by lia.
    pose proof (Z.mod_pos_bound b (2 ^ 6)). lia. }
  revert Hlt. generalize (Z.to_nat (Z.land b 63)). intros n Hn.
  do 64 (destruct n as [|n]; [vm_compute; reflexivity|]). lia.
Qed.

Lemma nanoid_of_length bytes : String.length (Lib.nanoid_of bytes) = length bytes.
Proof. unfold Lib.nanoid_of. by rewrite length_string_of_list_ascii, length_fmap. Qed.

Lemma nanoid_of_url_safe bytes : all_chars Lib.url_safe (Lib.nanoid_of bytes) = true.
Proof.
  unfold all_chars, Lib.nanoid_of. rewrite list_ascii_of_string_of_list_ascii.
  induction bytes as [|b bytes IH]; [done|].
  rewrite fmap_cons. cbn [forallb]. by rewrite symbol_url_safe.
Qed.

(** Two identifiers are equal only if the random bytes they were made of
    agree on their low six bits: an identifier keeps sixty bits of the
    random stream. *)
Lemma symbol_inj a b : Lib.symbol a = Lib.symbol b → Z.land a 63 = Z.land b 63.
Proof.
  assert (∀ x, 0 <= Z.land x 63 < 64) as Hrange.
  { intros x. change 63 with (Z.ones 6). rewrite Z.land_ones by lia.
    apply Z.mod_pos_bound. lia. }
  assert (NoDup (list_ascii_of_string Lib.urlAlphabet)) as Hnodup
    by (apply (bool_decide_eq_true_1 _); vm_compute; reflexivity).
  assert (∀ x, ∃ c, list_ascii_of_string Lib.urlAlphabet !! Z.to_nat (Z.land x 63) = Some c)
    as Hsome.
  { intros x. apply lookup_lt_is_Some_2. change (length _) with 64%nat.
    specialize (Hrange x). lia. }
  unfold Lib.symbol. destruct (Hsome a) as [ca Ha], (Hsome b) as [cb Hb].
  rewrite Ha, Hb. simpl. intros ->.
  pose proof (NoDup_lookup _ _ _ _ Hnodup Ha Hb) as Heq.
  pose proof (Hrange a). pose proof (Hrange b). lia.
Qed.

Lemma nanoid_of_inj bytes bytes' :
  length bytes = length bytes' → Lib.nanoid_of bytes = Lib.nanoid_of bytes' →
  (λ b, Z.land b 63) <$> bytes = (λ b, Z.land b 63) <$> bytes'.
Proof.
  unfold Lib.nanoid_of. intros Hlen Heq.
  apply (f_equal list_ascii_of_string) in Heq.
  rewrite !list_ascii_of_string_of_list_ascii in Heq.
  revert bytes' Hlen Heq. induction bytes as [|b bytes IH]; intros [|b' bytes']; try done.
  rewrite !fmap_cons. intros [= Hlen] [= Hb Hrest].
  f_equal; [by apply symbol_inj | by apply IH].
Qed.

Lemma artifact_name_intro h n k :
  artifact_name (local_stamp h) h
    (Lib.nanoid_of ((λ i, Sys.random h (n + i)%nat) <$> seq 0 10) +:+ "_"
     +:+ Lib.formatDate (Sys.utc_offset h (Sys.clock h k)) (Sys.clock h k) +:+ ".png").
Proof.
  eexists _, n, k. unfold local_stamp.
  split; [reflexivity|]. split; [reflexivity|].
  split; [by rewrite nanoid_of_length, length_fmap, length_seq | apply nanoid_of_url_safe].
Qed.



End Text.

(** ** Frame rules: what a computation leaves alone *)

Module Frame.
Import JS Sys Server Spec.

Section Rules.
Context {X : Type} (f : State → X).

Lemma preserves_ret {A} (a : A) : preserves f (mret a).
Proof. intros h st. reflexivity. Qed.

Lemma preserves_lift {A} (r : Error + A) : preserves f (lift r).
Proof. destruct r; intros h st; reflexivity. Qed.

Lemma preserves_bind {A B} (m : M A) (k : A → M B) :
  preserves f m → (∀ a, preserves f (k a)) → preserves f (m ≫= k).
Proof.
  intros Hm Hk h st. unfold mbind, M_bind.
  specialize (Hm h st). destruct (m h st) as [[a|e|c] st1]; simpl in *; try done.
  by rewrite Hk.
Qed.

Lemma preserves_try_catch {A} (m : M A) (handler : Error → M A) :
  preserves f m → (∀ e, preserves f (handler e)) → preserves f (try_catch m handler).
Proof.
  intros Hm Hk h st. unfold try_catch.
  specialize (Hm h st). destruct (m h st) as [[a|e|c] st1]; simpl in *; try done.
  by rewrite Hk.
Qed.

End Rules.

Lemma no_exit_bind {A B} (m : M A) (k : A → M B) :
  no_exit m → (∀ a, no_exit (k a)) → no_exit (m ≫= k).
Proof.
  intros Hm Hk h st c. unfold mbind, M_bind.
  specialize (Hm h st). destruct (m h st) as [[a|e|c'] st1]; simpl in *;
    [apply Hk | done | by destruct (Hm c')].
Qed.

Lemma no_exit_try_catch {A} (m : M A) (handler : Error → M A) :
  no_exit m → (∀ e, no_exit (handler e)) → no_exit (try_catch m handler).
Proof.
  intros Hm Hk h st c. unfold try_catch.
  specialize (Hm h st). destruct (m h st) as [[a|e|c'] st1]; simpl in *;
    [done | apply Hk | by destruct (Hm c')].
Qed.

Section Writes.
Context (Q : Host → string → list Byte.byte → Prop).

Lemma writes_only_preserves {A} (m : M A) : preserves files m → writes_only Q m.
Proof. intros Hm h st path data. rewrite Hm. by left. Qed.

Lemma writes_only_bind {A B} (m : M A) (k : A → M B) :
  writes_only Q m → (∀ a, writes_only Q (k a)) → writes_only Q (m ≫= k).
Proof.
  intros Hm Hk h st path data. unfold mbind, M_bind.
  specialize (Hm h st path data). destruct (m h st) as [[a|e|c] st1]; simpl in *; try done.
  intros [H|H]%Hk; [by apply Hm | by right].
Qed.

Lemma writes_only_try_catch {A} (m : M A) (handler : Error → M A) :
  writes_only Q m → (∀ e, writes_only Q (handler e)) → writes_only Q (try_catch m handler).
Proof.
  intros Hm Hk h st path data. unfold try_catch.
  specialize (Hm h st path data). destruct (m h st) as [[a|e|c] st1]; simpl in *; try done.
  intros [H|H]%Hk; [by apply Hm | by right].
Qed.

End Writes.

(** Running a computation one step at a time. *)
Lemma bind_normal {A B} (m : M A) (k : A → M B) h st a st1 :
  m h st = (Normal a, st1) → (m ≫= k) h st = k a h st1.
Proof. intros E. unfold mbind, M_bind. by rewrite E. Qed.

Lemma bind_throw {A B} (m : M A) (k : A → M B) h st e st1 :
  m h st = (Throw e, st1) → (m ≫= k) h st = (Throw e, st1).
Proof. intros E. unfold mbind, M_bind. by rewrite E. Qed.

Lemma bind_exit {A B} (m : M A) (k : A → M B) h st c st1 :
  m h st = (Exit c, st1) → (m ≫= k) h st = (Exit c, st1).
Proof. intros E. unfold mbind, M_bind. by rewrite E. Qed.

Lemma try_catch_normal {A} (m : M A) handler h st a st1 :
  m h st = (Normal a, st1) → try_catch m handler h st = (Normal a, st1).
Proof. intros E. unfold try_catch. by rewrite E. Qed.

Lemma try_catch_throw {A} (m : M A) handler h st e st1 :
  m h st = (Throw e, st1) → try_catch m handler h st = handler e h st1.
Proof. intros E. unfold try_catch. by rewrite E. Qed.

Lemma fetch_responded c h st r :
  provider h (length (calls st)) c = Responded r →
  fetch c h st = (Normal r, mkState (calls st ++ [c]) (files st) (dirs st) (drawn st)
                                     (ticks st) (stdout st) (logs st)).
Proof. intros E. unfold fetch. by rewrite E. Qed.

Lemma writeFile_ok path data h st :
  writeFile_error h path = None →
  writeFile path data h st
  = (Normal (), mkState (calls st) (<[path := data]> (files st)) (dirs st) (drawn st)
                        (ticks st) (stdout st) (logs st)).
Proof. intros E. unfold writeFile. by rewrite E. Qed.

Lemma writeFile_refused path data h st e :
  writeFile_error h path = Some e → writeFile path data h st = (Throw e, st).
Proof. intros E. unfold writeFile. by rewrite E. Qed.

Ltac step := first [ erewrite bind_normal by reflexivity
                   | erewrite bind_throw by reflexivity
                   | erewrite bind_exit by reflexivity ].

Ltac proj := cbn [calls files dirs drawn ticks stdout logs fst snd].

(** Calls to the provider along a run. *)
Lemma bind_calls {A B} (m : M A) (k : A → M B) h st :
  (∀ a, preserves calls (k a)) → calls ((m ≫= k) h st).2 = calls (m h st).2.
Proof.
  intros Hk. unfold mbind, M_bind. destruct (m h st) as [[a|e|c] st1]; simpl; try done.
  apply Hk.
Qed.

Lemma try_catch_calls {A} (m : M A) handler h st :
  (∀ e, preserves calls (handler e)) → calls (try_catch m handler h st).2 = calls (m h st).2.
Proof.
  intros Hk. unfold try_catch. destruct (m h st) as [[a|e|c] st1]; simpl; try done.
  apply Hk.
Qed.

Lemma fetch_then_calls {B} c (k : Response → M B) h st :
  (∀ r, preserves calls (k r)) → calls ((fetch c ≫= k) h st).2 = calls st ++ [c].
Proof.
  intros Hk. unfold mbind, M_bind, fetch.
  destruct (provider h (length (calls st)) c); simpl; [done|].
  by rewrite Hk.
Qed.

Lemma not_answered h st st' out : calls st' = calls st → ¬ answered h st st' out.
Proof.
  intros E (i & c & Hc & _). rewrite E, drop_all in Hc. by rewrite lookup_nil in Hc.
Qed.

Lemma answered_once h st st' out c :
  calls st' = calls st ++ [c] → answered h st st' out →
  provider h (length (calls st)) c = out.
Proof.
  intros E (i & c' & Hc & <-). rewrite E, drop_app_length in Hc.
  destruct i as [|i]; simpl in Hc; [|by rewrite lookup_nil in Hc].
  simplify_eq. by rewrite Nat.add_0_r.
Qed.

(** A primitive: run it and look. *)
Ltac leaf :=
  let h := fresh "h" in let st := fresh "st" in
  intros h st; try (intros ?);
  cbv [winston fetch writeFile mkdir new_Date nanoid stdout_write host throw
       process_exit mret M_ret read_length lift listen];
  repeat case_match; simplify_eq/=; done.

Create HintDb frame discriminated.

Ltac frame_step :=
  lazymatch goal with
  | |- preserves _ (_ ≫= _) => apply preserves_bind; [|intros ?]
  | |- preserves _ (try_catch _ _) => apply preserves_try_catch; [|intros ?]
  | |- no_exit (_ ≫= _) => apply no_exit_bind; [|intros ?]
  | |- no_exit (try_catch _ _) => apply no_exit_try_catch; [|intros ?]
  | |- preserves _ (match ?x with _ => _ end) => destruct x
  | |- no_exit (match ?x with _ => _ end) => destruct x
  | |- preserves _ (let _ := _ in _) => cbv zeta
  | |- no_exit (let _ := _ in _) => cbv zeta
  end.

Ltac frame := repeat first [ solve [auto with frame nocore] | frame_step | leaf ].

Ltac writes_step :=
  lazymatch goal with
  | |- writes_only _ (_ ≫= _) => apply writes_only_bind; [|intros ?]
  | |- writes_only _ (try_catch _ _) => apply writes_only_try_catch; [|intros ?]
  | |- writes_only _ (match ?x with _ => _ end) => destruct x
  | |- writes_only _ (let _ := _ in _) => cbv zeta
  end.

Ltac writes :=
  repeat first [ solve [auto with frame nocore]
               | writes_step
               | solve [apply writes_only_preserves; frame] ].

Section Program.
Variable b64 : value → Error + list Byte.byte.

Lemma save_predictions_calls dir preds acc :
  preserves calls (save_predictions b64 dir preds acc).
Proof. revert acc. induction preds as [|p preds IH]; intros acc; simpl; frame. Qed.

Lemma save_predictions_stdout dir preds acc :
  preserves stdout (save_predictions b64 dir preds acc).
Proof. revert acc. induction preds as [|p preds IH]; intros acc; simpl; frame. Qed.

Lemma save_predictions_no_exit dir preds acc :
  no_exit (save_predictions b64 dir preds acc).
Proof. revert acc. induction preds as [|p preds IH]; intros acc; simpl; frame. Qed.

Hint Resolve save_predictions_calls save_predictions_stdout
  save_predictions_no_exit : frame.

Lemma generateImageFromGemini_stdout p ar rp :
  preserves stdout (generateImageFromGemini b64 p ar rp).
Proof. unfold generateImageFromGemini. frame. Qed.

Lemma generateImageFromGemini_no_exit p ar rp :
  no_exit (generateImageFromGemini b64 p ar rp).
Proof. unfold generateImageFromGemini. frame. Qed.

Hint Resolve generateImageFromGemini_stdout generateImageFromGemini_no_exit : frame.

Lemma generate_image_stdout self args : preserves stdout (generate_image b64 self args).
Proof. unfold generate_image. frame. Qed.

Lemma generate_image_no_exit self args : no_exit (generate_image b64 self args).
Proof. unfold generate_image. frame. Qed.

End Program.

End Frame.

(** ** Runs of the program *)

Module Runs.
Import JS Sys Server Spec Text Frame.

Section Program.
Variable b64 : value → Error + list Byte.byte.

Hint Resolve save_predictions_calls save_predictions_stdout : frame.

(** One turn of the loop whose payload decodes and whose write goes
    through. *)
Lemma save_one dir name pred data h st :
  decodes b64 pred data → writeFile_error h (Lib.path_join dir name) = None →
  try_catch
    (payload ← lift (Get pred "bytesBase64Encoded");
     imageData ← lift (b64 payload);
     writeFile (Lib.path_join dir name) imageData;;
     winston info "Successfully saved generated image.")
    (λ e,
     winston error_level
       ("Failed to decode base64 or write image to disk: " +:+ message e);;
     throw e) h st
  = (Normal (),
     logged (mkState (calls st) (<[Lib.path_join dir name := data]> (files st)) (dirs st)
                     (drawn st) (ticks st) (stdout st) (logs st))
            info "Successfully saved generated image.").
Proof.
  intros (payload & Hget & Hdec) Hw. apply try_catch_normal.
  rewrite Hget. step. rewrite Hdec. step.
  by erewrite bind_normal by (by apply writeFile_ok).
Qed.

(** Any other turn throws and leaves the files as they were. *)
Lemma save_one_cases dir name pred h st :
  (∃ data, decodes b64 pred data ∧ writeFile_error h (Lib.path_join dir name) = None)
  ∨ (∃ e,
       try_catch
         (payload ← lift (Get pred "bytesBase64Encoded");
          imageData ← lift (b64 payload);
          writeFile (Lib.path_join dir name) imageData;;
          winston info "Successfully saved generated image.")
         (λ e,
          winston error_level
            ("Failed to decode base64 or write image to disk: " +:+ message e);;
          throw e) h st
       = (Throw e,
          logged st error_level
            ("Failed to decode base64 or write image to disk: " +:+ message e))).
Proof.
  destruct (Get pred "bytesBase64Encoded") as [e|payload] eqn:Hget.
  { right. exists e. erewrite try_catch_throw by (by step). by step. }
  destruct (b64 payload) as [e|bytes] eqn:Hdec.
  { right. exists e. erewrite try_catch_throw by (step; rewrite Hdec; by step). by step. }
  destruct (writeFile_error h (Lib.path_join dir name)) as [e|] eqn:Hw.
  - right. exists e. erewrite try_catch_throw; last first.
    { step. rewrite Hdec. step. by erewrite bind_throw by (by apply writeFile_refused). }
    by step.
  - left. exists bytes. split; [by exists payload|done].
Qed.

(** With payloads that decode and a disk that takes every write under [dir],
    the loop saves one file per prediction and returns their names. *)
Lemma save_predictions_ok dir preds : ∀ acc h st,
  Forall (λ pred, ∃ data, decodes b64 pred data) preds →
  (∀ name, writeFile_error h (Lib.path_join dir name) = None) →
  ∃ names st',
    save_predictions b64 dir preds acc h st = (Normal (acc ++ names), st')
    ∧ length names = length preds
    ∧ Forall (λ n, is_Some (files st' !! Lib.path_join dir n)) names
    ∧ (∀ p, is_Some (files st !! p) → is_Some (files st' !! p)).
Proof.
  induction preds as [|pred preds IH]; intros acc h st Hdec Hw.
  - exists [], st. rewrite app_nil_r. by repeat split.
  - apply Forall_cons in Hdec as [[data Hdata] Hdec].
    simpl. do 3 step. cbv zeta.
    set (name := (_ +:+ "_" +:+ _ +:+ ".png")).
    erewrite bind_normal by (by apply save_one).
    edestruct (IH (acc ++ [name]) h) as (names & st' & -> & Hlen & Hall & Hmono);
      [done..|].
    exists (name :: names), st'. rewrite <- app_assoc. simpl.
    repeat split; [by rewrite Hlen| |].
    + constructor; [|done]. apply Hmono. simpl. rewrite lookup_insert_eq. by eexists.
    + intros p Hp. apply Hmono. simpl.
      destruct (decide (Lib.path_join dir name = p)) as [->|];
        [rewrite lookup_insert_eq; by eexists | by rewrite lookup_insert_ne].
Qed.

(** Whatever the disk does, the loop leaves only artifacts behind. *)
Lemma save_predictions_writes dir preds acc :
  writes_only (artifact_under b64 dir) (save_predictions b64 dir preds acc).
Proof.
  revert acc. induction preds as [|pred preds IH]; intros acc h st path data; simpl.
  - by left.
  - do 3 step. cbv zeta. proj.
    assert (artifact_name (local_stamp h) h
              (Lib.nanoid_of ((λ i, random h (drawn st + i)%nat) <$> seq 0 10) +:+ "_"
               +:+ Lib.formatDate (utc_offset h (clock h (ticks st))) (clock h (ticks st))
               +:+ ".png")) as Hname
      by apply artifact_name_intro.
    revert Hname. generalize (Lib.nanoid_of ((λ i, random h (drawn st + i)%nat) <$> seq 0 10)
                              +:+ "_"
                              +:+ Lib.formatDate (utc_offset h (clock h (ticks st)))
                                    (clock h (ticks st)) +:+ ".png").
    intros name Hname.
    match goal with |- context [(_ ≫= _) h ?s] =>
      destruct (save_one_cases dir name pred h s)
        as [(bytes & (payload & Hget & Hdec) & Hw)|(e & E)]
    end.
    + erewrite bind_normal by (apply save_one; [by exists payload|done]).
      intros [H|H]%IH; [|by right]. revert H. unfold logged. proj.
      destruct (decide (Lib.path_join dir name = path)) as [<-|Hne].
      * rewrite lookup_insert_eq. intros [= <-]. right.
        by eexists _, _.
      * rewrite lookup_insert_ne by done. by left.
    + erewrite bind_throw by exact E. by left.
Qed.

Hint Resolve save_predictions_writes : frame.

Lemma generateImageFromGemini_writes p ar rp :
  writes_only (artifact_under b64 (Lib.path_join rp "images"))
    (generateImageFromGemini b64 p ar rp).
Proof. unfold generateImageFromGemini. writes. Qed.

Hint Resolve generateImageFromGemini_writes : frame.

Lemma generate_image_writes self args :
  writes_only (artifact_under b64 (Lib.path_join (resourcesPath self) "images"))
    (generate_image b64 self args).
Proof. unfold generate_image. writes. Qed.

(** A run of [generateImageFromGemini] calls the provider at most once. *)
Lemma generateImageFromGemini_calls p ar rp h st :
  let r := generateImageFromGemini b64 p ar rp h st in
  calls r.2 = calls st
  ∨ ∃ k, defined p = true ∧ env h !! "GEMINI_API_KEY" = Some k ∧ k ≠ ""
         ∧ calls r.2 = calls st ++ [call_of h k p ar].
Proof.
  cbv zeta. unfold generateImageFromGemini.
  destruct (defined p) eqn:Hp; [|by left; destruct p as [|[]]].
  assert (read_length p = mret ()) as -> by (by destruct p as [|[]]).
  do 3 step.
  destruct (env h !! "GEMINI_API_KEY") as [k|] eqn:Ek; [|by left].
  destruct (decide (k = "")); [by left|].
  right. exists k. repeat split; try done.
  step. cbv zeta. rewrite fetch_then_calls; [done|].
  intros r. frame.
Qed.

Hint Resolve generateImageFromGemini_stdout : frame.

Lemma generate_image_calls self args h st :
  let r := generate_image b64 self args h st in
  calls r.2 = calls st
  ∨ ∃ ar p k, Get args "aspect_ratio" = inr ar ∧ accepted ar = true
      ∧ Get args "prompt" = inr p ∧ defined p = true
      ∧ env h !! "GEMINI_API_KEY" = Some k ∧ k ≠ ""
      ∧ calls r.2 = calls st ++ [call_of h k p ar].
Proof.
  cbv zeta. unfold generate_image. step.
  destruct (Get args "aspect_ratio") as [e|ar] eqn:Har; [by left|].
  step. unfold accepted.
  destruct (truthy ar && negb (includes SUPPORTED_ASPECT_RATIOS ar)) eqn:Hv.
  { left. destruct (ToString ar) as [e|shown]; [reflexivity|]. by step. }
  rewrite try_catch_calls; [|intros; frame].
  destruct (Get args "prompt") as [e|p] eqn:Hp; [by left|].
  step. rewrite bind_calls; [|intros; frame].
  pose proof (generateImageFromGemini_calls p ar (resourcesPath self) h (received st))
    as [E|(k & ? & ? & ? & E)]; cbv zeta in E; unfold received, logged in E; simpl in E.
  - by left.
  - right. exists ar, p, k. rewrite E, Hv. by repeat split.
Qed.

(** From an answer of the provider back to the inputs that led to the call. *)
Lemma answered_inv self args h st out :
  answered h st (generate_image b64 self args h st).2 out →
  ∃ ar p k, Get args "aspect_ratio" = inr ar ∧ accepted ar = true
    ∧ Get args "prompt" = inr p ∧ defined p = true
    ∧ env h !! "GEMINI_API_KEY" = Some k ∧ k ≠ ""
    ∧ provider h (length (calls st)) (call_of h k p ar) = out.
Proof.
  intros Hans.
  destruct (generate_image_calls self args h st)
    as [E|(ar & p & k & ? & ? & ? & ? & ? & ? & E)]; cbv zeta in E.
  - by destruct (not_answered _ _ _ _ E Hans).
  - exists ar, p, k. repeat split; try done. by eapply answered_once.
Qed.

(** The run on a response with a failure status. *)
Lemma generateImageFromGemini_http_failure p ar rp h st k resp :
  defined p = true → env h !! "GEMINI_API_KEY" = Some k → k ≠ "" →
  provider h (length (calls st)) (call_of h k p ar) = Responded resp →
  ok resp = false →
  ∃ st', generateImageFromGemini b64 p ar rp h st
         = (Throw (new_Error (http_failure (status resp) (raw (text resp)))), st')
         ∧ files st' = files st ∧ calls st' = calls st ++ [call_of h k p ar].
Proof.
  intros Hp Hk Hne Hprov Hok. unfold generateImageFromGemini.
  assert (read_length p = mret ()) as -> by (by destruct p as [|[]]).
  do 3 step. rewrite Hk. destruct (decide (k = "")) as [|_]; [done|].
  step. cbv zeta. erewrite bind_normal by (by apply fetch_responded).
  rewrite Hok. simpl. step. eexists. split; [reflexivity|]. done.
Qed.

(** The run on a response with a success status, from the parse on. *)
Lemma generateImageFromGemini_sent p ar rp h st k resp :
  defined p = true → env h !! "GEMINI_API_KEY" = Some k → k ≠ "" →
  provider h (length (calls st)) (call_of h k p ar) = Responded resp →
  ok resp = true →
  generateImageFromGemini b64 p ar rp h st
  = (geminiResponse ← try_catch (lift (JSON_parse (text resp)))
       (λ e,
        winston error_level "Failed to parse Gemini response";;
        throw (new_Error ("Failed to parse Gemini response: " +:+ message e
                          +:+ ". The response was: " +:+ raw (text resp))));
     err ← lift (Get (Json geminiResponse) "error");
     if truthy err
     then
       winston error_level "Gemini API returned an error";;
       msg ← lift (Get err "message");
       shown ← lift (ToString msg);
       throw (new_Error ("Gemini API Error: " +:+ shown))
     else
       field ← lift (Get (Json geminiResponse) "predictions");
       if length_is_0 (if nullish field then Json (JArr []) else field)
       then
         winston error_level
           "No images were generated by Gemini. This might be due to safety filters.";;
         throw (new_Error NO_IMAGES)
       else
         preds ← lift (iterate "predictions"
                         (if nullish field then Json (JArr []) else field));
         save_predictions b64 (Lib.path_join rp "images") preds [])
    h (sent st (call_of h k p ar)).
Proof.
  intros Hp Hk Hne Hprov Hok. unfold generateImageFromGemini.
  assert (read_length p = mret ()) as -> by (by destruct p as [|[]]).
  do 3 step. rewrite Hk. destruct (decide (k = "")) as [|_]; [done|].
  step. cbv zeta. erewrite bind_normal by (by apply fetch_responded).
  rewrite Hok. simpl. unfold sent. proj. by rewrite <- app_assoc.
Qed.


Lemma generateImageFromGemini_success p ar rp h st k resp preds :
  defined p = true → env h !! "GEMINI_API_KEY" = Some k → k ≠ "" →
  provider h (length (calls st)) (call_of h k p ar) = Responded resp →
  successful resp preds → preds ≠ [] →
  generateImageFromGemini b64 p ar rp h st
  = save_predictions b64 (Lib.path_join rp "images") (Json <$> preds) [] h
      (sent st (call_of h k p ar)).
Proof.
  intros Hp Hk Hne Hprov (Hok & body & err & Hr & Herr & Hfalse & Hpreds) Hnil.
  erewrite generateImageFromGemini_sent by done.
  unfold JSON_parse. rewrite Hr.
  erewrite bind_normal by reflexivity. rewrite Herr. step. rewrite Hfalse, Hpreds. step.
  cbn [nullish length_is_0].
  rewrite bool_decide_eq_false_2 by done. by step.
Qed.

(** The run on a call that fails before any answer, and on a body that does
    not parse. *)
Lemma generateImageFromGemini_rejected p ar rp h st k e :
  defined p = true → env h !! "GEMINI_API_KEY" = Some k → k ≠ "" →
  provider h (length (calls st)) (call_of h k p ar) = Rejected e →
  generateImageFromGemini b64 p ar rp h st = (Throw e, sent st (call_of h k p ar)).
Proof.
  intros Hp Hk Hne Hr. unfold generateImageFromGemini.
  assert (read_length p = mret ()) as -> by (by destruct p as [|[]]).
  do 3 step. rewrite Hk, decide_False by done. step. cbv zeta.
  apply bind_throw. unfold fetch, sent. proj. fold (call_of h k p ar). rewrite Hr.
  by rewrite <- app_assoc.
Qed.

Lemma generateImageFromGemini_unparseable p ar rp h st k resp reason :
  defined p = true → env h !! "GEMINI_API_KEY" = Some k → k ≠ "" →
  provider h (length (calls st)) (call_of h k p ar) = Responded resp →
  ok resp = true → parsed (text resp) = inl reason →
  ∃ st', generateImageFromGemini b64 p ar rp h st
         = (Throw (new_Error (parse_failure reason (raw (text resp)))), st')
         ∧ files st' = files st.
Proof.
  intros Hp Hk Hne Hr Hok Hparse.
  rewrite (generateImageFromGemini_sent p ar rp h st k resp) by done.
  unfold JSON_parse. rewrite Hparse. simpl. eexists. split; [by step|done].
Qed.

(** [generate_image] around [generateImageFromGemini]. *)
Lemma generate_image_caught self args h st ar p e st1 :
  Get args "aspect_ratio" = inr ar → accepted ar = true → Get args "prompt" = inr p →
  generateImageFromGemini b64 p ar (resourcesPath self) h (received st) = (Throw e, st1) →
  generate_image b64 self args h st
  = (Normal ("Error generating image: " +:+ message e),
     logged st1 error_level ("Error generating image: " +:+ message e)).
Proof.
  intros Har Hacc Hp Hrun. unfold generate_image. step. rewrite Har. step.
  unfold accepted in Hacc. apply negb_true_iff in Hacc. rewrite Hacc.
  erewrite try_catch_throw; last first.
  { rewrite Hp. step. erewrite bind_throw by exact Hrun. reflexivity. }
  by step.
Qed.

Lemma generate_image_returned self args h st ar p filenames st1 :
  Get args "aspect_ratio" = inr ar → accepted ar = true → Get args "prompt" = inr p →
  generateImageFromGemini b64 p ar (resourcesPath self) h (received st)
  = (Normal filenames, st1) →
  generate_image b64 self args h st
  = (Normal (join LF (image_url self <$> filenames)),
     logged st1 info ("Image generation successful. " +:+ pretty (length filenames)
                      +:+ " image(s) created.")).
Proof.
  intros Har Hacc Hp Hrun. unfold generate_image. step. rewrite Har. step.
  unfold accepted in Hacc. apply negb_true_iff in Hacc. rewrite Hacc.
  erewrite try_catch_normal; [reflexivity|].
  rewrite Hp. step. erewrite bind_normal by exact Hrun. by step.
Qed.

(** With a prompt to read and a key, [generateImageFromGemini] sends exactly
    the call built from its arguments. *)
Lemma generateImageFromGemini_calls_made p ar rp h st k :
  defined p = true → env h !! "GEMINI_API_KEY" = Some k → k ≠ "" →
  calls (generateImageFromGemini b64 p ar rp h st).2 = calls st ++ [call_of h k p ar].
Proof.
  intros Hp Hk Hne.
  destruct (generateImageFromGemini_calls p ar rp h st) as [E|(k' & _ & Hk' & _ & E)];
    cbv zeta in E.
  - exfalso. revert E. unfold generateImageFromGemini.
    assert (read_length p = mret ()) as -> by (by destruct p as [|[]]).
    do 3 step. rewrite Hk. destruct (decide (k = "")) as [|_]; [done|].
    step. cbv zeta. rewrite fetch_then_calls by (intros r; frame). proj.
    intros E. apply (f_equal length) in E. rewrite length_app in E. simpl in E. lia.
  - by simplify_eq.
Qed.

Lemma generate_image_calls_made self args h st ar p k :
  Get args "aspect_ratio" = inr ar → accepted ar = true →
  Get args "prompt" = inr p → defined p = true →
  env h !! "GEMINI_API_KEY" = Some k → k ≠ "" →
  calls (generate_image b64 self args h st).2 = calls st ++ [call_of h k p ar].
Proof.
  intros Har Hacc Hp Hdef Hk Hne. unfold generate_image. step. rewrite Har. step.
  unfold accepted in Hacc. apply negb_true_iff in Hacc. rewrite Hacc.
  rewrite try_catch_calls; [|intros; frame].
  rewrite Hp. step. rewrite bind_calls; [|intros; frame].
  by rewrite (generateImageFromGemini_calls_made p ar _ h _ k).
Qed.

(** Without a prompt to read, nothing is sent. *)
Lemma generate_image_no_prompt self args h st :
  (∀ p, Get args "prompt" = inr p → defined p = false) →
  calls (generate_image b64 self args h st).2 = calls st.
Proof.
  intros Hmissing.
  destruct (generate_image_calls self args h st)
    as [E|(ar & p & k & _ & _ & Hp & Hdef & _)]; [done|].
  apply Hmissing in Hp. congruence.
Qed.

Lemma join_head sep x rest : ∃ t, join sep (x :: rest) = x +:+ t.
Proof.
  simpl. revert x. induction rest as [|y rest IH]; intros x; simpl.
  - exists "". by rewrite append_nil_r.
  - destruct (IH (x +:+ sep +:+ y)) as [t ->]. eexists. by rewrite !append_assoc.
Qed.

(** What [generate_image] returns once the aspect ratio is past the guard:
    the text of a caught error or the URLs of the files saved. *)
Lemma generate_image_accepted_result self args h st ar :
  Get args "aspect_ratio" = inr ar → accepted ar = true →
  (∃ reason, (generate_image b64 self args h st).1
             = Normal ("Error generating image: " +:+ reason))
  ∨ (∃ filenames, (generate_image b64 self args h st).1
                  = Normal (join LF (image_url self <$> filenames))).
Proof.
  intros Har Hacc. unfold generate_image. step. rewrite Har. step.
  unfold accepted in Hacc. apply negb_true_iff in Hacc. rewrite Hacc.
  destruct (Get args "prompt") as [e|p].
  { left. exists (message e). by erewrite try_catch_throw by reflexivity. }
  destruct (generateImageFromGemini b64 p ar (resourcesPath self) h (received st))
    as [[filenames|e|c] st1] eqn:Hrun.
  - right. exists filenames.
    erewrite try_catch_normal; [reflexivity|].
    step. erewrite bind_normal by exact Hrun. by step.
  - left. exists (message e).
    erewrite try_catch_throw; [by step|].
    step. by erewrite bind_throw by exact Hrun.
  - pose proof (generateImageFromGemini_no_exit b64 p ar (resourcesPath self) h
                  (received st) c) as Hne.
    by rewrite Hrun in Hne.
Qed.

Lemma generate_image_accepted_not_rejected self args h st ar shown :
  Get args "aspect_ratio" = inr ar → accepted ar = true →
  (generate_image b64 self args h st).1 ≠ Normal (invalid_aspect_ratio shown).
Proof.
  intros Har Hacc.
  destruct (generate_image_accepted_result self args h st ar Har Hacc)
    as [[reason ->]|[filenames ->]]; [discriminate|].
  destruct filenames as [|x rest]; [discriminate|].
  rewrite fmap_cons. destruct (join_head LF (image_url self x) (image_url self <$> rest))
    as [t ->].
  discriminate.
Qed.

End Program.

(** [ensureDir] returns or throws, and throws without a trace. *)
Lemma ensureDir_cases dirPath purpose h st :
  (∃ st', ensureDir dirPath purpose h st = (Normal (), st'))
  ∨ (∃ e, ensureDir dirPath purpose h st = (Throw e, st)).
Proof.
  unfold ensureDir, try_catch, mkdir.
  destruct (mkdir_error h dirPath) as [e|]; [|left; by eexists].
  destruct (decide (code e = Some "EEXIST")); [left|right]; by eexists.
Qed.

(** With no API key or no port to parse, [main] ends the process with status
    1 after an error record, unless the log directory cannot be made, in
    which case it throws. *)
Lemma main_fails h st :
  env h !! "GEMINI_API_KEY" = None ∨ env h !! "GEMINI_API_KEY" = Some ""
  ∨ Lib.parseInt (env_or h "SERVER_PORT" "9981") = None →
  (∃ st', main h st = (Exit 1, st') ∧ ends_in_error st')
  ∨ (∃ e st', main h st = (Throw e, st')).
Proof.
  intros Hbad. unfold main. step. cbv zeta.
  destruct (ensureDir_cases (Lib.path_join (dataDir h) "logs") "log" h st)
    as [(st1 & E1)|(e & E1)].
  2:{ right. eexists _, _. by erewrite bind_throw by exact E1. }
  erewrite bind_normal by exact E1. step.
  set (st2 := mkState _ _ _ _ _ _ _). clearbody st2.
  match goal with |- context [try_catch ?b ?hd] => set (dirs := try_catch b hd) end.
  assert ((∃ st3, dirs h st2 = (Normal (), st3))
          ∨ (∃ st3, dirs h st2 = (Exit 1, st3) ∧ ends_in_error st3)) as Hdirs.
  { subst dirs.
    destruct (ensureDir_cases (Lib.path_join (dataDir h) "artifacts") "resources" h st2)
      as [(st3 & E2)|(e & E2)].
    2:{ right. eexists. split.
        - erewrite try_catch_throw by (by erewrite bind_throw by exact E2).
          step. reflexivity.
        - by eexists _, _. }
    destruct (ensureDir_cases
                (Lib.path_join (Lib.path_join (dataDir h) "artifacts") "images") "images" h
                (logged st3 info "Created resources directory."))
      as [(st4 & E3)|(e & E3)].
    - left. eexists. apply try_catch_normal.
      erewrite bind_normal by exact E2. step. erewrite bind_normal by exact E3.
      reflexivity.
    - right. eexists. split.
      + erewrite try_catch_throw; last first.
        { erewrite bind_normal by exact E2. step. by erewrite bind_throw by exact E3. }
        step. reflexivity.
      + by eexists _, _. }
  clearbody dirs.
  destruct Hdirs as [(st3 & E)|(st3 & E & Herr)].
  2:{ left. exists st3. by erewrite bind_exit by exact E. }
  erewrite bind_normal by exact E.
  destruct (Lib.parseInt (env_or h "SERVER_PORT" "9981")) as [port|] eqn:Hport.
  2:{ left. eexists. split; [step; reflexivity|]. by eexists _, _. }
  assert (env_missing h "GEMINI_API_KEY" = true) as ->.
  { unfold env_missing. destruct Hbad as [-> | [-> | ?]]; [done|done|congruence]. }
  left. eexists. split; [step; reflexivity|]. by eexists _, _.
Qed.

(** Reading the envelope of a request that is not [null], and the id of the
    document the handler writes. *)
Lemma destructure_ok request h st :
  request ≠ JNull →
  ∃ id method params,
    Get (Json request) "id" = inr id
    ∧ destructure (Json request) h st = (Normal (id, method, params), st).
Proof. intros Hnull. destruct request; try done; by eexists _, _, _. Qed.

Lemma stringify_id id k v :
  k ≠ "id" → Get (Json (JSON_stringify [("id", id); (k, Json v)])) "id" = inr id.
Proof.
  intros Hk. destruct id as [|j]; simpl.
  - destruct (decide ("id" = k)); [congruence|done].
  - by destruct (decide ("id" = "id")).
Qed.

End Runs.

(** ** The claims *)

Module Claims.
Import JS Sys Server Spec Text Frame Runs Fixtures.

(** C4. When the provider answers a call of [generate_image] with a status
    outside 200..299, [generate_image] returns the error text made of the
    status code and the raw body of the response, no file is written, and
    that call is the only one the invocation makes. *)
Theorem http_failure_surfaces (b64 : value → Error + list Byte.byte) self args h st resp :
  let r := generate_image b64 self args h st in
  answered h st r.2 (Responded resp) → ok resp = false →
  ∃ msg c, r.1 = Normal msg
    ∧ msg = "Error generating image: Gemini API request failed with status "
            +:+ pretty (status resp) +:+ ": " +:+ raw (text resp)
    ∧ contains msg (pretty (status resp)) ∧ contains msg (raw (text resp))
    ∧ files r.2 = files st
    ∧ calls r.2 = calls st ++ [c].
Proof.
  cbv zeta.
  intros (ar & p & k & Har & Hacc & Hp & Hdef & Hk & Hne & Hprov)%answered_inv Hok.
  destruct (generateImageFromGemini_http_failure b64 p ar (resourcesPath self) h
              (received st) k resp) as (st1 & Hrun & Hfiles & Hcalls); try done.
  erewrite generate_image_caught by done. simpl.
  eexists _, _. split; [reflexivity|]. split; [reflexivity|].
  repeat split; try done.
  - exists ("Error generating image: " +:+ "Gemini API request failed with status "),
           (": " +:+ raw (text resp)). unfold http_failure. by rewrite !append_assoc.
  - exists ("Error generating image: " +:+ "Gemini API request failed with status "
            +:+ pretty (status resp) +:+ ": "), "".
    unfold http_failure. by rewrite !append_assoc, append_nil_r.
Qed.

Lemma http_failure_surfaces_witness :
  let r := generate_image base64_decode srv (args_of "a red cube" "16:9") h_500 st0 in
  ∃ msg c, r.1 = Normal msg
    ∧ msg = "Error generating image: Gemini API request failed with status "
            +:+ pretty 500 +:+ ": " +:+ boom
    ∧ contains msg (pretty 500) ∧ contains msg boom
    ∧ files r.2 = ∅
    ∧ calls r.2 = [c].
Proof.
  apply (http_failure_surfaces base64_decode srv (args_of "a red cube" "16:9") h_500 st0
           failure_500).
  - exists 0%nat, (call_of h_500 "k" (JStr "a red cube") (JStr "16:9")).
    split; vm_compute; reflexivity.
  - reflexivity.
Defined.




(** C1 (as amended). When the provider answers with a success status, a body
    that parses to a value with no error in it and a list of N >= 1
    predictions, every prediction carries a payload that [Buffer.from] turns
    into bytes, and the disk takes every write under the images directory,
    [generate_image] returns N URLs joined by newlines, each one "http://" +
    advertised host + ":" + port + "/images/" + filename, and every one of
    these files is in the images directory when the call returns. *)
Theorem urls_of_saved_images (b64 : value → Error + list Byte.byte) self args h st resp
    preds :
  let r := generate_image b64 self args h st in
  answered h st r.2 (Responded resp) → successful resp preds → preds ≠ [] →
  Forall (λ pred, ∃ data, decodes b64 (Json pred) data) preds →
  (∀ filename,
     writeFile_error h (resourcesPath self +:+ "/images/" +:+ filename) = None) →
  ∃ filenames, length filenames = length preds
    ∧ r.1 = Normal (join LF ((λ filename,
                                "http://" +:+ imageResourceServerAddr self +:+ ":"
                                +:+ pretty (serverPort self) +:+ "/images/" +:+ filename)
                             <$> filenames))
    ∧ Forall (λ filename,
                is_Some (files r.2 !! (resourcesPath self +:+ "/images/" +:+ filename)))
             filenames.
Proof.
  cbv zeta.
  intros (ar & p & k & Har & Hacc & Hp & Hdef & Hk & Hne & Hprov)%answered_inv
         Hsucc Hnil Hdec Hdisk.
  assert (∀ filename, Lib.path_join (Lib.path_join (resourcesPath self) "images") filename
                      = resourcesPath self +:+ "/images/" +:+ filename) as Hpath
    by (intros; unfold Lib.path_join; by rewrite !append_assoc).
  assert (∀ filename, writeFile_error h
            (Lib.path_join (Lib.path_join (resourcesPath self) "images") filename) = None)
    as Hdisk' by (intros filename; by rewrite Hpath).
  assert (Forall (λ pred, ∃ data, decodes b64 pred data) (Json <$> preds)) as Hdec'
    by (by apply Forall_fmap).
  destruct (save_predictions_ok b64 (Lib.path_join (resourcesPath self) "images")
              (Json <$> preds) [] h (sent (received st) (call_of h k p ar)) Hdec' Hdisk')
    as (filenames & st1 & Hrun & Hlen & Hall & _).
  erewrite generate_image_returned; [|done..|].
  2:{ erewrite generateImageFromGemini_success by done. exact Hrun. }
  exists filenames. split; [by rewrite Hlen, length_fmap|]. split; [reflexivity|].
  unfold logged. proj. eapply Forall_impl; [exact Hall|].
  intros filename Hf. cbv beta in Hf. by rewrite <- Hpath.
Qed.

Lemma urls_of_saved_images_witness :
  let r := generate_image base64_decode srv (args_of "a red cube" "16:9") h_one st0 in
  ∃ filenames, length filenames = 1%nat
    ∧ r.1 = Normal (join LF ((λ filename,
                                "http://" +:+ "127.0.0.1" +:+ ":" +:+ pretty 9981
                                +:+ "/images/" +:+ filename) <$> filenames))
    ∧ Forall (λ filename,
                is_Some (files r.2 !! ("/data/artifacts" +:+ "/images/" +:+ filename)))
             filenames.
Proof.
  apply (urls_of_saved_images base64_decode srv (args_of "a red cube" "16:9") h_one st0
           one_image [png "aGk="]).
  - exists 0%nat, (call_of h_one "k" (JStr "a red cube") (JStr "16:9")).
    split; vm_compute; reflexivity.
  - split; [reflexivity|]. eexists _, _. by repeat split.
  - discriminate.
  - constructor; [|constructor]. exists (base64_bytes "aGk="), (Json (JStr "aGk=")).
    split; reflexivity.
  - reflexivity.
Defined.

(** C1 as stated fails, in two ways. The provider answers with one
    prediction and the disk refuses the write: [generate_image] returns the
    text of that error. The provider answers with one prediction that lacks
    its payload, on a disk that takes every write: [Buffer.from] throws at
    line 339 and [generate_image] returns the text of that error. Neither
    answer is a URL. *)
Lemma urls_of_saved_images_counterexample :
  let r := generate_image base64_decode srv (args_of "a red cube" "16:9") h_full st0 in
  let r' := generate_image base64_decode srv (args_of "a red cube" "16:9") h_bare st0 in
  answered h_full st0 r.2 (Responded one_image)
  ∧ successful one_image [png "aGk="]
  ∧ r.1 = Normal "Error generating image: ENOSPC: no space left on device, write"
  ∧ (¬ ∃ filenames, length filenames = 1%nat
         ∧ r.1 = Normal (join LF (image_url srv <$> filenames)))
  ∧ answered h_bare st0 r'.2 (Responded bare_image)
  ∧ successful bare_image [JObj [("mimeType", JStr "image/png")]]
  ∧ (∀ path, writeFile_error h_bare path = None)
  ∧ r'.1 = Normal ("Error generating image: " +:+ NOT_A_STRING)
  ∧ files r'.2 = ∅
  ∧ ¬ ∃ filenames, length filenames = 1%nat
        ∧ r'.1 = Normal (join LF (image_url srv <$> filenames)).
Proof.
  cbv zeta. split.
  { exists 0%nat, (call_of h_full "k" (JStr "a red cube") (JStr "16:9")).
    split; vm_compute; reflexivity. }
  split. { split; [reflexivity|]. eexists _, _. by repeat split. }
  split. { vm_compute. reflexivity. }
  split.
  { intros (filenames & Hlen & Hres).
    destruct filenames as [|x [|y l]]; [discriminate Hlen| |discriminate Hlen].
    vm_compute in Hres. discriminate Hres. }
  split.
  { exists 0%nat, (call_of h_bare "k" (JStr "a red cube") (JStr "16:9")).
    split; vm_compute; reflexivity. }
  split. { split; [reflexivity|]. eexists _, _. by repeat split. }
  split. { done. }
  split. { vm_compute. reflexivity. }
  split. { vm_compute. reflexivity. }
  intros (filenames & Hlen & Hres).
  destruct filenames as [|x [|y l]]; [discriminate Hlen| |discriminate Hlen].
  vm_compute in Hres. discriminate Hres.
Qed.

(** C7 (as amended). Every file a call of [generate_image] leaves behind is
    <resourcesPath>/images/<filename>, holds the bytes [Buffer.from] made of
    a payload, and its filename is an identifier of ten symbols of the
    URL-safe alphabet made of ten bytes of the random stream (two identifiers
    differ as soon as the low six bits of their bytes do), "_", the stamp of
    a reading of the clock in the local time of the host, and ".png"; from
    1970 to 9999 that stamp is fourteen decimal digits (yyyyMMddHHmmss). *)
Theorem artifacts_named_and_placed (b64 : value → Error + list Byte.byte) self args h st
    path data :
  let r := generate_image b64 self args h st in
  files r.2 !! path = Some data → files st !! path ≠ Some data →
  (∃ filename payload,
      path = resourcesPath self +:+ "/images/" +:+ filename
      ∧ b64 payload = inr data
      ∧ ∃ id n k,
          filename = id +:+ "_"
                     +:+ Lib.formatDate (utc_offset h (clock h k)) (clock h k) +:+ ".png"
          ∧ id = Lib.nanoid_of ((λ i, random h (n + i)%nat) <$> seq 0 10)
          ∧ String.length id = 10%nat
          ∧ all_chars Lib.url_safe id = true)
  ∧ (∀ ms, 0 <= ms / 1000 + 60 * utc_offset h ms < 253402300800 →
           is_digits 14 (Lib.formatDate (utc_offset h ms) ms) = true)
  ∧ (∀ bytes bytes',
       length bytes = length bytes' → Lib.nanoid_of bytes = Lib.nanoid_of bytes' →
       (λ b, Z.land b 63) <$> bytes = (λ b, Z.land b 63) <$> bytes').
Proof.
  cbv zeta. intros Hnew Hold. split; [|split].
  - destruct (generate_image_writes b64 self args h st path data Hnew)
      as [?|(filename & payload & -> & Hname & Hdata)]; [done|].
    exists filename, payload. split; [|done].
    unfold Lib.path_join. by rewrite !append_assoc.
  - intros ms Hms. unfold Lib.formatDate. by apply stamp_digits.
  - apply nanoid_of_inj.
Qed.

Lemma artifacts_named_and_placed_witness :
  (∃ filename payload,
      "/data/artifacts/images/useandom-2_19700101010000.png"
      = "/data/artifacts" +:+ "/images/" +:+ filename
      ∧ base64_decode payload = inr (base64_bytes "aGk=")
      ∧ ∃ id n k,
          filename = id +:+ "_"
                     +:+ Lib.formatDate (utc_offset h_one (clock h_one k)) (clock h_one k)
                     +:+ ".png"
          ∧ id = Lib.nanoid_of ((λ i, random h_one (n + i)%nat) <$> seq 0 10)
          ∧ String.length id = 10%nat
          ∧ all_chars Lib.url_safe id = true)
  ∧ (∀ ms, 0 <= ms / 1000 + 60 * utc_offset h_one ms < 253402300800 →
           is_digits 14 (Lib.formatDate (utc_offset h_one ms) ms) = true)
  ∧ (∀ bytes bytes',
       length bytes = length bytes' → Lib.nanoid_of bytes = Lib.nanoid_of bytes' →
       (λ b, Z.land b 63) <$> bytes = (λ b, Z.land b 63) <$> bytes').
Proof.
  apply (artifacts_named_and_placed base64_decode srv (args_of "a red cube" "16:9") h_one
           st0 "/data/artifacts/images/useandom-2_19700101010000.png"
           (base64_bytes "aGk=")).
  - vm_compute. reflexivity.
  - vm_compute. discriminate.
Defined.

(** C7 as stated fails: on a host one hour ahead of UTC the file saved at the
    epoch is stamped 01:00:00, which is not the UTC stamp of any reading of
    the clock. *)
Lemma artifacts_named_and_placed_counterexample :
  let r := generate_image base64_decode srv (args_of "a red cube" "16:9") h_one st0 in
  files r.2 !! "/data/artifacts/images/useandom-2_19700101010000.png"
  = Some (base64_bytes "aGk=")
  ∧ (∀ k, Lib.formatDateUTC (clock h_one k) = "19700101000000")
  ∧ ¬ ∃ filename,
        "/data/artifacts/images/useandom-2_19700101010000.png"
        = "/data/artifacts" +:+ "/images/" +:+ filename
        ∧ artifact_name Lib.formatDateUTC h_one filename.
Proof.
  cbv zeta. split; [vm_compute; reflexivity|]. split; [intros k; vm_compute; reflexivity|].
  intros (filename & Hpath & id & n & k & -> & _ & Hlen & _).
  do 10 (destruct id as [|? id]; [discriminate Hlen|]).
  destruct id; [|discriminate Hlen].
  vm_compute in Hpath. discriminate Hpath.
Qed.

(** C2 (as amended). For a call of [generate_image] whose aspect_ratio is
    truthy: if it is one of "1:1", "3:4", "4:3", "9:16", "16:9" it is not
    rejected, at most one provider call is made and that call carries it
    unchanged (one is made whenever there is a prompt to read and an API
    key); otherwise no provider is called and no file written, and
    [generate_image] returns the text that names the value, as the template
    literal of line 86 prints it, and exactly the five supported values,
    unless the value cannot be turned into text (an object that hides
    [toString]): then the conversion of line 86 throws, outside the [try],
    and [generate_image] throws that error instead of returning. *)
Theorem aspect_ratio_guard (b64 : value → Error + list Byte.byte) self args h st ar :
  let r := generate_image b64 self args h st in
  Get args "aspect_ratio" = inr ar → truthy ar = true →
  if includes ["1:1"; "3:4"; "4:3"; "9:16"; "16:9"] ar
  then (∀ shown, r.1 ≠ Normal (invalid_aspect_ratio shown))
       ∧ (calls r.2 = calls st
          ∨ ∃ c, calls r.2 = calls st ++ [c] ∧ aspectRatio (body c) = ar)
       ∧ (∀ prompt k,
            Get args "prompt" = inr prompt → defined prompt = true →
            env h !! "GEMINI_API_KEY" = Some k → k ≠ "" →
            ∃ c, calls r.2 = calls st ++ [c] ∧ aspectRatio (body c) = ar)
  else calls r.2 = calls st
       ∧ files r.2 = files st
       ∧ match ToString ar with
         | inr shown =>
             r.1 = Normal ("Invalid aspect ratio: " +:+ shown
                           +:+ ", supported values are: 1:1, 3:4, 4:3, 9:16, 16:9")
         | inl e => r.1 = Throw e
         end.
Proof.
  cbv zeta. intros Har Htruthy.
  change ["1:1"; "3:4"; "4:3"; "9:16"; "16:9"] with SUPPORTED_ASPECT_RATIOS.
  destruct (includes SUPPORTED_ASPECT_RATIOS ar) eqn:Hin.
  - assert (accepted ar = true) as Hacc by (unfold accepted; by rewrite Htruthy, Hin).
    split; [intros shown;
            exact (generate_image_accepted_not_rejected b64 self args h st ar shown
                     Har Hacc)|].
    split.
    + destruct (generate_image_calls b64 self args h st)
        as [E|(ar' & p & k & Har' & _ & _ & _ & _ & _ & E)]; cbv zeta in E; [by left|].
      right. eexists. split; [exact E|].
      rewrite Har in Har'. injection Har' as <-. reflexivity.
    + intros prompt k Hp Hdef Hk Hne. eexists.
      split; [by apply generate_image_calls_made | reflexivity].
  - unfold generate_image. step. rewrite Har. step. rewrite Htruthy, Hin. simpl.
    destruct (ToString ar) as [e|shown] eqn:Hshown.
    + step. by split_and!.
    + do 2 step. by split_and!.
Qed.

Lemma aspect_ratio_guard_witness :
  let r := generate_image base64_decode srv (args_of "a red cube" "2:1") h_one st0 in
  calls r.2 = []
  ∧ files r.2 = ∅
  ∧ r.1 = Normal ("Invalid aspect ratio: " +:+ "2:1"
                  +:+ ", supported values are: 1:1, 3:4, 4:3, 9:16, 16:9").
Proof.
  apply (aspect_ratio_guard base64_decode srv (args_of "a red cube" "2:1") h_one st0
           (Json (JStr "2:1"))); reflexivity.
Defined.

(** C2 as stated fails, in two ways. The empty string is present and is
    none of the five values, yet no error text comes back and the provider
    is called. The object {"toString":1} is present and is none of the five
    values, yet [generate_image] returns no text at all: it throws. *)
Lemma aspect_ratio_guard_counterexample :
  let r := generate_image base64_decode srv (args_of "a red cube" "") h_one st0 in
  let r' := generate_image base64_decode srv args_hiding_toString h_one st0 in
  Get (args_of "a red cube" "") "aspect_ratio" = inr (Json (JStr ""))
  ∧ includes SUPPORTED_ASPECT_RATIOS (Json (JStr "")) = false
  ∧ r.1 = Normal "http://127.0.0.1:9981/images/useandom-2_19700101010000.png"
  ∧ calls r.2 = [call_of h_one "k" (Json (JStr "a red cube")) (Json (JStr ""))]
  ∧ ¬ (r.1 = Normal (invalid_aspect_ratio "") ∧ calls r.2 = calls st0)
  ∧ Get args_hiding_toString "aspect_ratio" = inr (Json (JObj [("toString", JNum 1)]))
  ∧ includes SUPPORTED_ASPECT_RATIOS (Json (JObj [("toString", JNum 1)])) = false
  ∧ r'.1 = Throw (TypeError "Cannot convert object to primitive value")
  ∧ ∀ text, r'.1 ≠ Normal text.
Proof.
  cbv zeta. split_and!; try (vm_compute; reflexivity).
  - intros [H _]. vm_compute in H. discriminate H.
  - intros text H. vm_compute in H. discriminate H.
Qed.

(** C10. When aspect_ratio is the empty string the guard of line 85 lets the
    call through: the validation error is not what [generate_image] returns,
    and the provider request, if one is made (one is made whenever there is a
    prompt to read and an API key), carries the empty string as its
    aspectRatio. *)
Theorem empty_aspect_ratio_forwarded (b64 : value → Error + list Byte.byte) self args h st :
  let r := generate_image b64 self args h st in
  Get args "aspect_ratio" = inr (Json (JStr "")) →
  truthy (Json (JStr "")) = false
  ∧ r.1 ≠ Normal (invalid_aspect_ratio "")
  ∧ (calls r.2 = calls st
     ∨ ∃ c, calls r.2 = calls st ++ [c] ∧ aspectRatio (body c) = Json (JStr ""))
  ∧ (∀ prompt k,
       Get args "prompt" = inr prompt → defined prompt = true →
       env h !! "GEMINI_API_KEY" = Some k → k ≠ "" →
       ∃ c, calls r.2 = calls st ++ [c] ∧ aspectRatio (body c) = Json (JStr "")).
Proof.
  cbv zeta. intros Har. split; [reflexivity|].
  split; [exact (generate_image_accepted_not_rejected b64 self args h st (Json (JStr ""))
                   "" Har eq_refl)|].
  split.
  - destruct (generate_image_calls b64 self args h st)
      as [E|(ar' & p & k & Har' & _ & _ & _ & _ & _ & E)]; cbv zeta in E; [by left|].
    right. eexists. split; [exact E|].
    rewrite Har in Har'. injection Har' as <-. reflexivity.
  - intros prompt k Hp Hdef Hk Hne. eexists.
    split; [by apply generate_image_calls_made | reflexivity].
Qed.

Lemma empty_aspect_ratio_forwarded_witness :
  let r := generate_image base64_decode srv (args_of "a red cube" "") h_one st0 in
  truthy (Json (JStr "")) = false
  ∧ r.1 ≠ Normal (invalid_aspect_ratio "")
  ∧ (calls r.2 = []
     ∨ ∃ c, calls r.2 = [] ++ [c] ∧ aspectRatio (body c) = Json (JStr ""))
  ∧ (∀ prompt k,
       Get (args_of "a red cube" "") "prompt" = inr prompt → defined prompt = true →
       env h_one !! "GEMINI_API_KEY" = Some k → k ≠ "" →
       ∃ c, calls r.2 = [] ++ [c] ∧ aspectRatio (body c) = Json (JStr "")).
Proof.
  apply (empty_aspect_ratio_forwarded base64_decode srv (args_of "a red cube" "") h_one st0).
  reflexivity.
Defined.

(** C9 (as amended). [generate_image] does not check the text of the prompt.
    A prompt that is missing ([undefined] or [null]) never reaches the
    provider; any other prompt, the empty string included, is sent as it is
    in the one call made when the aspect ratio passes the guard and the API
    key is set. *)
Theorem prompt_sent_unchecked (b64 : value → Error + list Byte.byte) self args h st prompt :
  let r := generate_image b64 self args h st in
  Get args "prompt" = inr prompt →
  (defined prompt = false → calls r.2 = calls st)
  ∧ (defined prompt = true →
     ∀ ar k,
       Get args "aspect_ratio" = inr ar → accepted ar = true →
       env h !! "GEMINI_API_KEY" = Some k → k ≠ "" →
       ∃ c, calls r.2 = calls st ++ [c] ∧ instances (body c) = [prompt]).
Proof.
  cbv zeta. intros Hp. split.
  - intros Hdef. apply generate_image_no_prompt. intros p Hp'.
    rewrite Hp in Hp'. injection Hp' as <-. exact Hdef.
  - intros Hdef ar k Har Hacc Hk Hne. eexists.
    split; [by apply generate_image_calls_made | reflexivity].
Qed.

Lemma prompt_sent_unchecked_witness :
  let r := generate_image base64_decode srv (args_of "" "16:9") h_one st0 in
  (defined (Json (JStr "")) = false → calls r.2 = [])
  ∧ (defined (Json (JStr "")) = true →
     ∀ ar k,
       Get (args_of "" "16:9") "aspect_ratio" = inr ar → accepted ar = true →
       env h_one !! "GEMINI_API_KEY" = Some k → k ≠ "" →
       ∃ c, calls r.2 = [] ++ [c] ∧ instances (body c) = [Json (JStr "")]).
Proof.
  apply (prompt_sent_unchecked base64_decode srv (args_of "" "16:9") h_one st0
           (Json (JStr ""))).
  reflexivity.
Defined.

(** C9 as stated fails: an empty prompt is not held back, the provider is
    called with it. *)
Lemma prompt_sent_unchecked_counterexample :
  let r := generate_image base64_decode srv (args_of "" "16:9") h_one st0 in
  Get (args_of "" "16:9") "prompt" = inr (Json (JStr ""))
  ∧ calls r.2 = [call_of h_one "k" (Json (JStr "")) (Json (JStr "16:9"))]
  ∧ instances (body (call_of h_one "k" (Json (JStr "")) (Json (JStr "16:9"))))
    = [Json (JStr "")]
  ∧ ¬ calls r.2 = calls st0.
Proof.
  cbv zeta. repeat split; try (vm_compute; reflexivity).
  intros H. vm_compute in H. discriminate H.
Qed.

(** C6. For a request line that parses to an object whose method is neither
    "get_info" nor "generate_image" and prints as [name] (a string prints as
    itself), the handler writes the one line {"id": <the id of the request>,
    "error": {"message": "Unknown method: <name>"}}, calls no provider and
    writes no file. *)
Theorem unknown_method_rejected (guide : string) (b64 : value → Error + list Byte.byte)
    service line props name h st :
  let r := on_line guide b64 service line h st in
  parsed line = inr (JObj props) →
  ToString (own "method" props) = inr name →
  own "method" props ≠ Json (JStr "get_info") →
  own "method" props ≠ Json (JStr "generate_image") →
  r.1 = Normal ()
  ∧ stdout r.2
    = stdout st
      ++ [JSON_stringify
            [("id", own "id" props);
             ("error", Json (JObj [("message", JStr ("Unknown method: " +:+ name))]))]]
  ∧ (∀ id, own "id" props = Json id →
       stdout r.2
       = stdout st
         ++ [JObj [("id", id);
                   ("error", JObj [("message", JStr ("Unknown method: " +:+ name))])]])
  ∧ calls r.2 = calls st
  ∧ files r.2 = files st.
Proof.
  cbv zeta. intros Hline Hname Hn1 Hn2. unfold on_line.
  erewrite try_catch_throw; last first.
  { unfold JSON_parse. rewrite Hline. step. unfold destructure. step. cbn [Get].
    apply (bind_throw _ _ h st (new_Error ("Unknown method: " +:+ name)) st).
    destruct (own "method" props) as [|[| | |m| |]];
      try (rewrite Hname; by step).
    simpl in Hname. injection Hname as ->.
    destruct (decide (name = "get_info")) as [->|_]; [done|].
    destruct (decide (name = "generate_image")) as [->|_]; done. }
  unfold JSON_parse. rewrite Hline. do 3 step. simpl.
  repeat split; try done. intros id Hid. by rewrite Hid.
Qed.

Lemma unknown_method_rejected_witness :
  let r := on_line guide base64_decode srv (request_line 7 "foo") h_one st0 in
  r.1 = Normal ()
  ∧ stdout r.2
    = [] ++ [JSON_stringify
               [("id", Json (JNum 7));
                ("error", Json (JObj [("message", JStr ("Unknown method: " +:+ "foo"))]))]]
  ∧ (∀ id, own "id" [("id", JNum 7); ("method", JStr "foo")] = Json id →
       stdout r.2
       = [] ++ [JObj [("id", id);
                      ("error", JObj [("message", JStr ("Unknown method: " +:+ "foo"))])]])
  ∧ calls r.2 = []
  ∧ files r.2 = ∅.
Proof.
  apply (unknown_method_rejected guide base64_decode srv (request_line 7 "foo")
           [("id", JNum 7); ("method", JStr "foo")] "foo" h_one st0);
    (reflexivity || discriminate).
Defined.

(** One line in, one line out, where the handler gets as far as answering:
    for every line that parses as JSON to a value other than [null], the
    handler writes exactly one line; it is {id, result} or {id, error:
    {message}}, and its id is the id of the request (left out when the
    request has none). *)
Theorem parsed_line_answered_once (guide : string) (b64 : value → Error + list Byte.byte)
    service line request h st :
  let r := on_line guide b64 service line h st in
  parsed line = inr request → request ≠ JNull →
  r.1 = Normal ()
  ∧ ∃ id doc,
      Get (Json request) "id" = inr id
      ∧ stdout r.2 = stdout st ++ [doc]
      ∧ Get (Json doc) "id" = inr id
      ∧ ((∃ result, doc = JSON_stringify [("id", id); ("result", Json result)])
         ∨ (∃ msg, doc = JSON_stringify
                           [("id", id);
                            ("error", Json (JObj [("message", JStr msg)]))])).
Proof.
  cbv zeta. intros Hline Hnull.
  destruct (destructure_ok request h st Hnull) as (id & method & params & Hid & Hd).
  set (handler := λ e : Error,
     winston error_level ("Error processing MCP request: " +:+ message e);;
     request ← lift (JSON_parse line);
     id ← lift (Get (Json request) "id");
     stdout_write
       (JSON_stringify [("id", id);
                        ("error", Json (JObj [("message", JStr (message e))]))])).
  assert (∀ e st1, stdout st1 = stdout st →
            (handler e h st1).1 = Normal ()
            ∧ stdout (handler e h st1).2
              = stdout st ++ [JSON_stringify
                                [("id", id);
                                 ("error", Json (JObj [("message", JStr (message e))]))]])
    as Hcatch.
  { intros e st1 Hst1. unfold handler, JSON_parse. rewrite Hline. do 2 step. rewrite Hid.
    step. simpl. by rewrite Hst1. }
  assert (∀ e st1, stdout st1 = stdout st →
            (handler e h st1).1 = Normal ()
            ∧ ∃ id' doc, Get (Json request) "id" = inr id'
                ∧ stdout (handler e h st1).2 = stdout st ++ [doc]
                ∧ Get (Json doc) "id" = inr id'
                ∧ ((∃ result, doc = JSON_stringify [("id", id'); ("result", Json result)])
                   ∨ (∃ msg, doc = JSON_stringify
                                     [("id", id');
                                      ("error", Json (JObj [("message", JStr msg)]))])))
    as Hcaught.
  { intros e st1 Hst1. destruct (Hcatch e st1 Hst1) as [H1 H2]. split; [done|]. eexists id, _.
    split; [done|]. split; [exact H2|]. split; [by apply stringify_id|].
    right. by eexists. }
  clear Hcatch. unfold on_line. fold handler. clearbody handler.
  unfold JSON_parse. rewrite Hline.
  match goal with |- (try_catch ?b _ _ _).1 = _ ∧ _ => set (body := b) end.
  assert ((∃ result st', body h st = (Normal (), st')
             ∧ stdout st' = stdout st ++ [JSON_stringify [("id", id); ("result", Json result)]])
          ∨ (∃ e st1, body h st = (Throw e, st1) ∧ stdout st1 = stdout st)) as Hbody.
  { subst body. step. erewrite bind_normal by exact Hd. cbv beta iota.
    destruct method as [|[| | |m| |]];
      try (right; destruct (ToString _) as [e|shown]; eexists _, _;
           (split; [step; reflexivity|reflexivity])).
    destruct (decide (m = "get_info")) as [_|_].
    { left. eexists _, _. split; [step; reflexivity|reflexivity]. }
    destruct (decide (m = "generate_image")) as [_|_].
    2:{ right. eexists _, _. split; [step; reflexivity|reflexivity]. }
    pose proof (generate_image_stdout b64 service params h st) as Hout.
    pose proof (generate_image_no_exit b64 service params h st) as Hne.
    destruct (generate_image b64 service params h st) as [[text|e|c] st1] eqn:Hrun.
    - left. eexists _, _. split.
      + erewrite bind_normal by (erewrite bind_normal by exact Hrun; reflexivity).
        reflexivity.
      + simpl. by rewrite <- Hout.
    - right. eexists _, _. split.
      + erewrite bind_throw by (erewrite bind_throw by exact Hrun; reflexivity).
        reflexivity.
      + exact Hout.
    - by destruct (Hne c). }
  clearbody body. unfold try_catch.
  destruct Hbody as [(result & st' & -> & Hst')|(e & st1 & -> & Hst1)].
  - split; [done|]. exists id, (JSON_stringify [("id", id); ("result", Json result)]).
    split; [done|]. split; [done|]. split; [by apply stringify_id|]. left. by eexists.
  - by apply Hcaught.
Qed.

Lemma parsed_line_answered_once_witness :
  let r := on_line guide base64_decode srv (request_line 7 "get_info") h_one st0 in
  r.1 = Normal ()
  ∧ ∃ id doc,
      Get (Json (request 7 "get_info")) "id" = inr id
      ∧ stdout r.2 = [] ++ [doc]
      ∧ Get (Json doc) "id" = inr id
      ∧ ((∃ result, doc = JSON_stringify [("id", id); ("result", Json result)])
         ∨ (∃ msg, doc = JSON_stringify
                           [("id", id);
                            ("error", Json (JObj [("message", JStr msg)]))])).
Proof.
  apply (parsed_line_answered_once guide base64_decode srv
           (request_line 7 "get_info") (request 7 "get_info") h_one st0).
  - reflexivity.
  - discriminate.
Defined.

(** C3. Every line read is to be answered by exactly one line carrying the
    id of its request, lines that are not JSON included; the handler does not
    do so: for the line [not json] the catch block parses the line a second
    time to read the id, throws again and writes nothing, and for the line
    [null] it throws on reading the id. *)
Theorem malformed_line_unanswered :
  let r := on_line guide base64_decode srv malformed_line h_one st0 in
  let r' := on_line guide base64_decode srv null_line h_one st0 in
  JSON_parse malformed_line = inl (SyntaxError "Unexpected token 'o'")
  ∧ r.1 = Throw (SyntaxError "Unexpected token 'o'")
  ∧ stdout r.2 = []
  ∧ (¬ ∃ doc, stdout r.2 = stdout st0 ++ [doc])
  ∧ r'.1 = Throw (TypeError "Cannot read properties of null (reading 'id')")
  ∧ stdout r'.2 = [].
Proof.
  cbv zeta. repeat split; try (vm_compute; reflexivity).
  intros [doc H]. vm_compute in H. discriminate H.
Qed.

(** C8 (as amended). At startup, if the API key is absent or empty, or if
    [parseInt] finds no integer at the start of the port value, the process
    ends with exit status 1, the last record logged being an error, with
    nothing written to the output stream and no provider call made. *)
Theorem startup_fails_fast h st :
  let r := start h st in
  env h !! "GEMINI_API_KEY" = None ∨ env h !! "GEMINI_API_KEY" = Some ""
  ∨ Lib.parseInt (env_or h "SERVER_PORT" "9981") = None →
  r.1 = Exit 1
  ∧ (∃ earlier msg, logs r.2 = earlier ++ [(error_level, msg)])
  ∧ stdout r.2 = stdout st
  ∧ calls r.2 = calls st.
Proof.
  cbv zeta. intros Hbad.
  assert (preserves stdout start ∧ preserves calls start) as [Hout Hcalls]
    by (split; unfold start, main, ensureDir; frame).
  split; [|split; [|by split]].
  - unfold start.
    destruct (main_fails h st Hbad) as [(st' & E & _)|(e & st' & E)].
    + unfold try_catch. by rewrite E.
    + erewrite try_catch_throw by exact E. by step.
  - unfold start.
    destruct (main_fails h st Hbad) as [(st' & E & Herr)|(e & st' & E)].
    + unfold try_catch. by rewrite E.
    + erewrite try_catch_throw by exact E. step. by eexists _, _.
Qed.

Lemma startup_fails_fast_witness :
  let r := start h_no_key st0 in
  r.1 = Exit 1
  ∧ (∃ earlier msg, logs r.2 = earlier ++ [(error_level, msg)])
  ∧ stdout r.2 = []
  ∧ calls r.2 = [].
Proof.
  apply (startup_fails_fast h_no_key st0). left. reflexivity.
Defined.

(** C8 as stated fails: the port value "8080abc" is not an integer, yet
    [parseInt] reads 8080 from it and startup goes through. *)
Lemma startup_fails_fast_counterexample :
  let r := start (h_port "8080abc") st0 in
  env (h_port "8080abc") !! "SERVER_PORT" = Some "8080abc"
  ∧ is_integer_literal "8080abc" = false
  ∧ Lib.parseInt "8080abc" = Some 8080
  ∧ r.1 = Normal {| service := {| resourcesPath := "/data/artifacts";
                                  imageResourceServerAddr := "127.0.0.1";
                                  serverPort := 8080 |};
                    listenAddr := "127.0.0.1";
                    imagesDir := "/data/artifacts/images" |}
  ∧ ¬ ∃ c, r.1 = Exit c.
Proof.
  cbv zeta. repeat split; try (vm_compute; reflexivity).
  intros [c H]. vm_compute in H. discriminate H.
Qed.

End Claims.

(** ** Further properties of the program *)

Module Further.
Import JS Sys Server Spec Http Terms Parts Scenes Text Frame Runs Fixtures.

Lemma path_join_inj dir a b : Lib.path_join dir a = Lib.path_join dir b → a = b.
Proof. unfold Lib.path_join. intros H. by do 2 apply (inj (String.append _)) in H. Qed.

Lemma name_at_0 h st : name_at h st 0 = name_of h (drawn st) (ticks st).
Proof. unfold name_at. f_equal; lia. Qed.

Lemma name_at_next h st st' k :
  drawn st' = (drawn st + 10)%nat → ticks st' = S (ticks st) →
  name_at h st' k = name_at h st (S k).
Proof. unfold name_at. intros -> ->. f_equal; lia. Qed.

Section Program.
Variable b64 : value → Error + list Byte.byte.

(** The files the loop leaves. *)
Lemma store_lookup_other dir h datas : ∀ st m path,
  (∀ k, (k < length datas)%nat → path ≠ Lib.path_join dir (name_at h st k)) →
  store dir h (drawn st) (ticks st) datas m !! path = m !! path.
Proof.
  induction datas as [|data datas IH]; intros st m path Hp; [done|]. simpl.
  rewrite (IH (advance st)).
  - apply lookup_insert_ne. rewrite <- name_at_0. intros E. eapply (Hp 0%nat); [simpl; lia|done].
  - intros k Hk. rewrite (name_at_next h st) by reflexivity. apply Hp. simpl. lia.
Qed.

Lemma store_lookup_last dir h datas : ∀ st m k data,
  datas !! k = Some data →
  (∀ j, (k < j < length datas)%nat → name_at h st j ≠ name_at h st k) →
  store dir h (drawn st) (ticks st) datas m !! Lib.path_join dir (name_at h st k)
  = Some data.
Proof.
  induction datas as [|data0 datas IH]; intros st m k data Hk Hlast; [done|]. simpl.
  destruct k as [|k]; simpl in Hk.
  - injection Hk as ->. rewrite (store_lookup_other dir h datas (advance st)).
    + rewrite name_at_0. apply lookup_insert_eq.
    + intros j Hj E. apply path_join_inj in E.
      rewrite (name_at_next h st (advance st)) in E by reflexivity.
      apply (Hlast (S j)); [simpl; lia|done].
  - erewrite <- (name_at_next h st (advance st)) by reflexivity.
    apply (IH (advance st)); [done|].
    intros j Hj. rewrite !(name_at_next h st (advance st)) by reflexivity. apply Hlast. simpl. lia.
Qed.

Lemma store_kept dir h datas : ∀ d t m, kept m (store dir h d t datas m).
Proof.
  induction datas as [|data datas IH]; intros d t m path Hp; [done|]. simpl.
  apply IH. destruct (decide (Lib.path_join dir (name_of h d t) = path)) as [<-|].
  - rewrite lookup_insert_eq. by eexists.
  - by rewrite lookup_insert_ne.
Qed.

Lemma store_has dir h datas : ∀ st m k,
  (k < length datas)%nat →
  is_Some (store dir h (drawn st) (ticks st) datas m !! Lib.path_join dir (name_at h st k)).
Proof.
  induction datas as [|data datas IH]; intros st m k Hk; [simpl in Hk; lia|]. simpl.
  destruct k as [|k].
  - apply store_kept. rewrite name_at_0, lookup_insert_eq. by eexists.
  - erewrite <- (name_at_next h st (advance st)) by reflexivity.
    apply (IH (advance st)). simpl in Hk. lia.
Qed.

(** One turn of the loop. *)
Lemma save_predictions_cons dir pred rest acc h st :
  save_predictions b64 dir (pred :: rest) acc h st
  = (try_catch
       (payload ← lift (Get pred "bytesBase64Encoded");
        imageData ← lift (b64 payload);
        writeFile (Lib.path_join dir (name_of h (drawn st) (ticks st))) imageData;;
        winston info "Successfully saved generated image.")
       (λ e,
        winston error_level
          ("Failed to decode base64 or write image to disk: " +:+ message e);;
        throw e);;
     save_predictions b64 dir rest (acc ++ [name_of h (drawn st) (ticks st)])) h (advance st).
Proof. simpl. do 3 step. unfold name_of, advance. reflexivity. Qed.

Ltac at_state :=
  unfold advance, sent, received, logged in *;
  cbn [calls files dirs drawn ticks stdout logs fst snd] in *.

Lemma save_predictions_run dir preds : ∀ datas acc h st,
  Forall2 (decodes b64) preds datas →
  (∀ k, (k < length preds)%nat →
        writeFile_error h (Lib.path_join dir (name_at h st k)) = None) →
  ∃ st',
    save_predictions b64 dir preds acc h st
    = (Normal (acc ++ (name_at h st <$> seq 0 (length preds))), st')
    ∧ files st' = store dir h (drawn st) (ticks st) datas (files st)
    ∧ calls st' = calls st.
Proof.
  induction preds as [|pred preds IH]; intros datas acc h st Hdec Hw.
  - apply Forall2_nil_inv_l in Hdec as ->. exists st. simpl. by rewrite app_nil_r.
  - apply Forall2_cons_inv_l in Hdec as (data & datas' & Hdata & Hdec & ->).
    rewrite save_predictions_cons.
    assert (writeFile_error h (Lib.path_join dir (name_of h (drawn st) (ticks st))) = None)
      as Hw0 by (rewrite <- name_at_0; apply Hw; simpl; lia).
    erewrite bind_normal by (by apply save_one).
    edestruct (IH datas' (acc ++ [name_of h (drawn st) (ticks st)]) h)
      as (st' & -> & Hf & Hc); [done| |].
    2:{ at_state. exists st'. split; [|by split].
        rewrite <- app_assoc. simpl. rewrite <- name_at_0. do 4 f_equal.
        rewrite <- fmap_S_seq, <- list_fmap_compose. apply list_fmap_ext.
        intros i x _. simpl. by apply name_at_next. }
    intros k Hk. rewrite (name_at_next h st) by reflexivity. apply Hw. simpl. lia.
Qed.

Lemma save_predictions_stops dir preds : ∀ datas acc h st j e,
  (j < length preds)%nat →
  Forall2 (decodes b64) (take (S j) preds) datas →
  (∀ k, (k < j)%nat → writeFile_error h (Lib.path_join dir (name_at h st k)) = None) →
  writeFile_error h (Lib.path_join dir (name_at h st j)) = Some e →
  ∃ st',
    save_predictions b64 dir preds acc h st = (Throw e, st')
    ∧ files st' = store dir h (drawn st) (ticks st) (take j datas) (files st)
    ∧ calls st' = calls st.
Proof.
  induction preds as [|pred preds IH]; intros datas acc h st j e Hj Hdec Hw He;
    [simpl in Hj; lia|].
  rewrite save_predictions_cons. rewrite firstn_cons in Hdec.
  apply Forall2_cons_inv_l in Hdec as (data & datas' & (payload & Hget & Hdata) & Hdec & ->).
  destruct j as [|j].
  - rewrite name_at_0 in He.
    erewrite bind_throw; last first.
    { erewrite try_catch_throw; last first.
      { rewrite Hget. step. rewrite Hdata. step.
        by erewrite bind_throw by (by apply writeFile_refused). }
      reflexivity. }
    eexists. split; [reflexivity|]. proj. by split_and!.
  - assert (writeFile_error h (Lib.path_join dir (name_of h (drawn st) (ticks st))) = None)
      as Hw0 by (rewrite <- name_at_0; apply Hw; simpl; lia).
    erewrite bind_normal by (apply save_one; [by exists payload|done]).
    edestruct (IH datas' (acc ++ [name_of h (drawn st) (ticks st)]) h)
      as (st' & -> & Hf & Hc); last first.
    { at_state. exists st'. split; [done|]. simpl. by split_and!. }
    + rewrite (name_at_next h st) by reflexivity. apply He.
    + intros k Hk. rewrite (name_at_next h st) by reflexivity. apply Hw. lia.
    + done.
    + simpl in Hj. lia.
Qed.

(** The runs of [generateImageFromGemini] the claims leave out. *)
Lemma generateImageFromGemini_no_key p ar rp h st :
  defined p = true → env_missing h "GEMINI_API_KEY" = true →
  ∃ st', generateImageFromGemini b64 p ar rp h st
         = (Throw (new_Error "GEMINI_API_KEY environment variable not set"), st')
         ∧ files st' = files st ∧ calls st' = calls st.
Proof.
  intros Hp Hk. unfold generateImageFromGemini, env_missing in *.
  assert (read_length p = mret ()) as -> by (by destruct p as [|[]]).
  do 3 step.
  destruct (env h !! "GEMINI_API_KEY") as [k|]; [|by eexists].
  apply bool_decide_eq_true_1 in Hk as ->. rewrite decide_True by done. by eexists.
Qed.

Lemma generateImageFromGemini_error_object p ar rp h st k resp body err msg :
  defined p = true → env h !! "GEMINI_API_KEY" = Some k → k ≠ "" →
  provider h (length (calls st)) (call_of h k p ar) = Responded resp →
  ok resp = true → parsed (text resp) = inr body →
  Get (Json body) "error" = inr err → truthy err = true →
  Get err "message" = inr (Json (JStr msg)) →
  ∃ st', generateImageFromGemini b64 p ar rp h st
         = (Throw (new_Error ("Gemini API Error: " +:+ msg)), st')
         ∧ files st' = files st.
Proof.
  intros Hp Hk Hne Hr Hok Hparse Herr Htruthy Hmsg.
  rewrite (generateImageFromGemini_sent b64 p ar rp h st k resp) by done.
  unfold JSON_parse. rewrite Hparse.
  erewrite bind_normal by reflexivity. rewrite Herr. step. rewrite Htruthy. step.
  rewrite Hmsg. do 2 step.
  eexists. split; [reflexivity|done].
Qed.

(** X1. Without an API key in the environment at the time of the request,
    [generate_image] answers with the text of that error, calls nobody and
    leaves the files alone. *)
Theorem missing_key_reported self args h st ar prompt :
  let r := generate_image b64 self args h st in
  Get args "aspect_ratio" = inr ar → accepted ar = true →
  Get args "prompt" = inr prompt → defined prompt = true →
  env_missing h "GEMINI_API_KEY" = true →
  r.1 = Normal "Error generating image: GEMINI_API_KEY environment variable not set"
  ∧ calls r.2 = calls st
  ∧ files r.2 = files st.
Proof.
  cbv zeta. intros Har Hacc Hp Hdef Hkey.
  destruct (generateImageFromGemini_no_key prompt ar (resourcesPath self) h (received st))
    as (st1 & Hrun & Hfiles & Hcalls); [done..|].
  erewrite generate_image_caught by done. by split_and!.
Qed.

(** X2. An answer of the provider that carries an error object with a string
    as its message, under a success status, is reported with that message,
    whatever else the answer holds; no file is written. *)
Theorem provider_error_reported self args h st resp body err msg :
  let r := generate_image b64 self args h st in
  answered h st r.2 (Responded resp) → ok resp = true →
  parsed (text resp) = inr body →
  Get (Json body) "error" = inr err → truthy err = true →
  Get err "message" = inr (Json (JStr msg)) →
  r.1 = Normal ("Error generating image: Gemini API Error: " +:+ msg)
  ∧ files r.2 = files st.
Proof.
  cbv zeta.
  intros (ar & p & k & Har & Hacc & Hp & Hdef & Hk & Hne & Hprov)%answered_inv
         Hok Hparse Herr Htruthy Hmsg.
  destruct (generateImageFromGemini_error_object p ar (resourcesPath self) h
              (received st) k resp body err msg) as (st1 & Hrun & Hfiles); try done.
  erewrite generate_image_caught by done. by split.
Qed.

(** X3. An answer under a success status whose body is not JSON is reported
    with the reason the parser gives and the body as it came; no file is
    written. *)
Theorem unparseable_answer_reported self args h st resp reason :
  let r := generate_image b64 self args h st in
  answered h st r.2 (Responded resp) → ok resp = true →
  parsed (text resp) = inl reason →
  r.1 = Normal ("Error generating image: Failed to parse Gemini response: " +:+ reason
                +:+ ". The response was: " +:+ raw (text resp))
  ∧ files r.2 = files st.
Proof.
  cbv zeta.
  intros (ar & p & k & Har & Hacc & Hp & Hdef & Hk & Hne & Hprov)%answered_inv Hok Hparse.
  destruct (generateImageFromGemini_unparseable b64 p ar (resourcesPath self) h
              (received st) k resp reason) as (st1 & Hrun & Hfiles); try done.
  erewrite generate_image_caught by done. by split.
Qed.

(** X4. A call that fails before any answer arrives (the promise of [fetch]
    rejects) is reported with the message of that failure; the one call was
    made and no file is written. *)
Theorem failed_call_reported self args h st e :
  let r := generate_image b64 self args h st in
  answered h st r.2 (Rejected e) →
  r.1 = Normal ("Error generating image: " +:+ message e)
  ∧ (∃ c, calls r.2 = calls st ++ [c])
  ∧ files r.2 = files st.
Proof.
  cbv zeta.
  intros (ar & p & k & Har & Hacc & Hp & Hdef & Hk & Hne & Hprov)%answered_inv.
  erewrite generate_image_caught;
    [|done..|by apply generateImageFromGemini_rejected].
  split_and!; [done|by eexists|done].
Qed.

(** X5. When every payload up to position [j] decodes and the write of the
    image at position [j] is refused, the caller gets the text of that error
    and not one URL, yet the images before it were written and stay on disk:
    each of their paths holds a file, and it holds the decoded bytes of its
    prediction unless a later write of the request, the refused one
    included, went to the same name. *)
Theorem earlier_images_stay self args h st resp preds datas j e :
  let r := generate_image b64 self args h st in
  answered h st r.2 (Responded resp) → successful resp preds → (j < length preds)%nat →
  Forall2 (λ pred data, decodes b64 (Json pred) data) (take (S j) preds) datas →
  (∀ k, (k < j)%nat → writeFile_error h (image_path self (name_at h st k)) = None) →
  writeFile_error h (image_path self (name_at h st j)) = Some e →
  r.1 = Normal ("Error generating image: " +:+ message e)
  ∧ (∀ k, (k < j)%nat → is_Some (files r.2 !! image_path self (name_at h st k)))
  ∧ (∀ k data, (k < j)%nat → datas !! k = Some data →
       (∀ i, (k < i ≤ j)%nat → name_at h st i ≠ name_at h st k) →
       files r.2 !! image_path self (name_at h st k) = Some data).
Proof.
  cbv zeta.
  intros (ar & p & k & Har & Hacc & Hp & Hdef & Hk & Hne & Hprov)%answered_inv
         Hsucc Hj Hdec Hbefore Hrefused.
  assert (preds ≠ []) as Hnil by (intros ->; simpl in Hj; lia).
  assert (length datas = S j) as Hlen.
  { apply Forall2_length in Hdec. rewrite length_take in Hdec. lia. }
  apply Forall2_fmap_l in Hdec. rewrite fmap_take in Hdec.
  destruct (save_predictions_stops (Lib.path_join (resourcesPath self) "images")
              (Json <$> preds) datas [] h (sent (received st) (call_of h k p ar)) j e)
    as (st1 & Hrun & Hfiles & _); [by rewrite length_fmap|done..|].
  erewrite generate_image_caught;
    [|done..|by erewrite generateImageFromGemini_success by done].
  at_state. rewrite Hfiles. split_and!; [done| |].
  - intros i Hi. apply (store_has _ h (take j datas) st). rewrite length_take. lia.
  - intros i data Hi Hdata Hlast. apply (store_lookup_last _ h (take j datas) st).
    + by rewrite lookup_take_lt.
    + intros i' Hi'. rewrite length_take in Hi'. apply Hlast. lia.
Qed.

(** X6. When every prediction carries a payload that decodes and every image
    can be written, the answer lists the URLs in the order of the
    predictions, the name of the [k]-th being made of the [k]-th ten random
    bytes and the [k]-th reading of the clock; the file of a prediction holds
    its decoded bytes unless a later prediction got the same name, in which
    case the later one has taken its place. *)
Theorem images_saved_in_order self args h st resp preds datas :
  let r := generate_image b64 self args h st in
  answered h st r.2 (Responded resp) → successful resp preds → preds ≠ [] →
  Forall2 (λ pred data, decodes b64 (Json pred) data) preds datas →
  (∀ k, (k < length preds)%nat →
        writeFile_error h (image_path self (name_at h st k)) = None) →
  r.1 = Normal (join LF (image_url self <$> (name_at h st <$> seq 0 (length preds))))
  ∧ (∀ k data, datas !! k = Some data →
       (∀ j, (k < j < length preds)%nat → name_at h st j ≠ name_at h st k) →
       files r.2 !! image_path self (name_at h st k) = Some data).
Proof.
  cbv zeta.
  intros (ar & p & k & Har & Hacc & Hp & Hdef & Hk & Hne & Hprov)%answered_inv
         Hsucc Hnil Hdec Hdisk.
  assert (length preds = length datas) as Hlen by (by apply Forall2_length in Hdec).
  apply Forall2_fmap_l in Hdec.
  destruct (save_predictions_run (Lib.path_join (resourcesPath self) "images")
              (Json <$> preds) datas [] h (sent (received st) (call_of h k p ar)))
    as (st1 & Hrun & Hfiles & _); [done|by rewrite length_fmap|].
  rewrite length_fmap in Hrun.
  erewrite generate_image_returned;
    [|done..|by erewrite generateImageFromGemini_success by done].
  at_state. rewrite Hfiles. split; [done|].
  intros i data Hi Hlast. apply (store_lookup_last _ h datas st); [done|].
  intros i' Hi'. apply Hlast. lia.
Qed.

End Program.

Lemma missing_key_reported_witness :
  let r := generate_image base64_decode srv (args_of "a red cube" "16:9") h_no_key st0 in
  r.1 = Normal "Error generating image: GEMINI_API_KEY environment variable not set"
  ∧ calls r.2 = []
  ∧ files r.2 = ∅.
Proof.
  apply (missing_key_reported base64_decode srv (args_of "a red cube" "16:9") h_no_key st0
           (Json (JStr "16:9")) (Json (JStr "a red cube"))); reflexivity.
Defined.

Lemma provider_error_reported_witness :
  let r := generate_image base64_decode srv (args_of "a red cube" "16:9") h_quota st0 in
  r.1 = Normal ("Error generating image: Gemini API Error: " +:+ "quota exceeded")
  ∧ files r.2 = ∅.
Proof.
  apply (provider_error_reported base64_decode srv (args_of "a red cube" "16:9") h_quota st0
           quota_error
           (JObj [("error", JObj [("message", JStr "quota exceeded")])])
           (Json (JObj [("message", JStr "quota exceeded")])) "quota exceeded").
  - exists 0%nat, (call_of h_quota "k" (JStr "a red cube") (JStr "16:9")).
    split; vm_compute; reflexivity.
  - reflexivity.
  - reflexivity.
  - reflexivity.
  - reflexivity.
  - reflexivity.
Defined.

Lemma unparseable_answer_reported_witness :
  let r := generate_image base64_decode srv (args_of "a red cube" "16:9") h_html st0 in
  r.1 = Normal ("Error generating image: Failed to parse Gemini response: "
                +:+ "Unexpected token '<'" +:+ ". The response was: " +:+ "<html>")
  ∧ files r.2 = ∅.
Proof.
  apply (unparseable_answer_reported base64_decode srv (args_of "a red cube" "16:9") h_html
           st0 html_page "Unexpected token '<'").
  - exists 0%nat, (call_of h_html "k" (JStr "a red cube") (JStr "16:9")).
    split; vm_compute; reflexivity.
  - reflexivity.
  - reflexivity.
Defined.

Lemma failed_call_reported_witness :
  let r := generate_image base64_decode srv (args_of "a red cube" "16:9") h_down st0 in
  r.1 = Normal ("Error generating image: " +:+ "fetch failed")
  ∧ (∃ c, calls r.2 = [] ++ [c])
  ∧ files r.2 = ∅.
Proof.
  apply (failed_call_reported base64_decode srv (args_of "a red cube" "16:9") h_down st0
           (TypeError "fetch failed")).
  exists 0%nat, (call_of h_down "k" (JStr "a red cube") (JStr "16:9")).
  split; vm_compute; reflexivity.
Defined.

Lemma earlier_images_stay_witness :
  let r := generate_image base64_decode srv (args_of "a red cube" "16:9") h_second_refused
             st0 in
  r.1 = Normal ("Error generating image: "
                +:+ "EACCES: permission denied, open '"
                +:+ "/data/artifacts/images/6T198340PX_19700101010000.png" +:+ "'")
  ∧ (∀ k, (k < 1)%nat →
          is_Some (files r.2 !! image_path srv (name_at h_second_refused st0 k)))
  ∧ (∀ k data, (k < 1)%nat →
       [base64_bytes "aGk="; base64_bytes "eW8="] !! k = Some data →
       (∀ i, (k < i ≤ 1)%nat →
             name_at h_second_refused st0 i ≠ name_at h_second_refused st0 k) →
       files r.2 !! image_path srv (name_at h_second_refused st0 k) = Some data).
Proof.
  apply (earlier_images_stay base64_decode srv (args_of "a red cube" "16:9")
           h_second_refused st0 two_images
           [JObj [("bytesBase64Encoded", JStr "aGk=")];
            JObj [("bytesBase64Encoded", JStr "eW8=")]]
           [base64_bytes "aGk="; base64_bytes "eW8="] 1
           (mkError "Error"
              ("EACCES: permission denied, open '"
               +:+ "/data/artifacts/images/6T198340PX_19700101010000.png" +:+ "'")
              (Some "EACCES"))).
  - exists 0%nat, (call_of h_second_refused "k" (JStr "a red cube") (JStr "16:9")).
    split; vm_compute; reflexivity.
  - split; [reflexivity|]. eexists _, _. by repeat split.
  - simpl. lia.
  - repeat constructor; eexists; split; reflexivity.
  - intros k Hk. destruct k; [reflexivity|lia].
  - reflexivity.
Defined.

Lemma images_saved_in_order_witness :
  let r := generate_image base64_decode srv (args_of "a red cube" "16:9") h_two st0 in
  r.1 = Normal (join LF (image_url srv <$> (name_at h_two st0 <$> seq 0 2)))
  ∧ (∀ k data,
       [base64_bytes "aGk="; base64_bytes "eW8="] !! k = Some data →
       (∀ j, (k < j < 2)%nat → name_at h_two st0 j ≠ name_at h_two st0 k) →
       files r.2 !! image_path srv (name_at h_two st0 k) = Some data).
Proof.
  apply (images_saved_in_order base64_decode srv (args_of "a red cube" "16:9") h_two st0
           two_images
           [JObj [("bytesBase64Encoded", JStr "aGk=")];
            JObj [("bytesBase64Encoded", JStr "eW8=")]]
           [base64_bytes "aGk="; base64_bytes "eW8="]).
  - exists 0%nat, (call_of h_two "k" (JStr "a red cube") (JStr "16:9")).
    split; vm_compute; reflexivity.
  - split; [reflexivity|]. eexists _, _. by repeat split.
  - discriminate.
  - repeat constructor; eexists; split; reflexivity.
  - reflexivity.
Defined.


(** Rules for [files_related]. *)
Lemma same_outside_preorder P : PreOrder (same_outside P).
Proof.
  split; [by intros m path _|].
  intros m1 m2 m3 H12 H23 path Hp. by rewrite H23, H12.
Qed.

Lemma kept_preorder : PreOrder kept.
Proof. split; [by intros m path|]. intros m1 m2 m3 H12 H23 path Hp. by apply H23, H12. Qed.

Section Related.
Context (R : relation (gmap string (list Byte.byte))) (HR : PreOrder R).

Lemma files_related_preserves {A} (m : M A) : preserves files m → files_related R m.
Proof. intros Hm h st. by rewrite Hm. Qed.

Lemma files_related_bind {A B} (m : M A) (k : A → M B) :
  files_related R m → (∀ a, files_related R (k a)) → files_related R (m ≫= k).
Proof.
  intros Hm Hk h st. unfold mbind, M_bind.
  specialize (Hm h st). destruct (m h st) as [[a|e|c] st1]; simpl in *; try done.
  etrans; [exact Hm|apply Hk].
Qed.

Lemma files_related_try_catch {A} (m : M A) (handler : Error → M A) :
  files_related R m → (∀ e, files_related R (handler e)) →
  files_related R (try_catch m handler).
Proof.
  intros Hm Hk h st. unfold try_catch.
  specialize (Hm h st). destruct (m h st) as [[a|e|c] st1]; simpl in *; try done.
  etrans; [exact Hm|apply Hk].
Qed.

End Related.

Lemma writeFile_touches dir name data :
  touches_only (under dir) (writeFile (Lib.path_join dir name) data).
Proof.
  intros h st path Hp. unfold writeFile.
  destruct (writeFile_error h _); [done|]. proj.
  apply lookup_insert_ne. intros <-. apply Hp. by exists name.
Qed.

Lemma writeFile_keeps path data : keeps_files (writeFile path data).
Proof.
  intros h st p Hp. unfold writeFile.
  destruct (writeFile_error h _); [done|]. proj.
  destruct (decide (path = p)) as [<-|];
    [rewrite lookup_insert_eq; by eexists | by rewrite lookup_insert_ne].
Qed.

Ltac related_step :=
  lazymatch goal with
  | |- files_related _ (_ ≫= _) => apply files_related_bind; [solve [auto with frame nocore]| |intros ?]
  | |- files_related _ (try_catch _ _) => apply files_related_try_catch; [solve [auto with frame nocore]| |intros ?]
  | |- files_related _ (match ?x with _ => _ end) => destruct x
  | |- files_related _ (let _ := _ in _) => cbv zeta
  end.

Ltac related :=
  unfold touches_only, keeps_files;
  repeat first [ solve [auto with frame nocore]
               | related_step
               | solve [apply files_related_preserves; [solve [auto with frame nocore]|frame]] ].

Section Program.
Variable guide : string.
Variable b64 : value → Error + list Byte.byte.

Hint Resolve same_outside_preorder kept_preorder writeFile_touches writeFile_keeps : frame.
Hint Unfold touches_only keeps_files : frame.

Lemma save_predictions_touches dir preds acc :
  files_related (same_outside (under dir)) (save_predictions b64 dir preds acc).
Proof.
  revert acc. induction preds as [|p preds IH]; intros acc; simpl; related.
  apply writeFile_touches.
Qed.

Lemma save_predictions_keeps dir preds acc :
  files_related kept (save_predictions b64 dir preds acc).
Proof.
  revert acc. induction preds as [|p preds IH]; intros acc; simpl; related.
  apply writeFile_keeps.
Qed.

Lemma save_predictions_dirs dir preds acc :
  preserves dirs (save_predictions b64 dir preds acc).
Proof. revert acc. induction preds as [|p preds IH]; intros acc; simpl; frame. Qed.

Hint Resolve save_predictions_touches save_predictions_keeps save_predictions_dirs
  save_predictions_no_exit : frame.

Lemma generate_image_touches self args :
  files_related (same_outside (under (Lib.path_join (resourcesPath self) "images")))
    (generate_image b64 self args).
Proof. unfold generate_image, generateImageFromGemini. related. Qed.

Lemma generate_image_keeps self args : files_related kept (generate_image b64 self args).
Proof. unfold generate_image, generateImageFromGemini. related. Qed.

Lemma generate_image_dirs self args : preserves dirs (generate_image b64 self args).
Proof. unfold generate_image, generateImageFromGemini. frame. Qed.

Hint Resolve generate_image_touches generate_image_keeps generate_image_dirs : frame.

Lemma on_line_touches service line :
  files_related (same_outside (under (Lib.path_join (resourcesPath service) "images")))
    (on_line guide b64 service line).
Proof. unfold on_line, destructure. related. Qed.

Lemma on_line_keeps service line :
  files_related kept (on_line guide b64 service line).
Proof. unfold on_line, destructure. related. Qed.

Lemma on_line_dirs service line : preserves dirs (on_line guide b64 service line).
Proof. unfold on_line, destructure. frame. Qed.

(** X7. Whatever the line, handling it removes no file, leaves every file
    outside the images directory of the service as it was, and makes no
    directory (the files are those the program writes itself; the log is
    kept apart). *)
Theorem requests_keep_to_images_dir service line h st path :
  let r := on_line guide b64 service line h st in
  (is_Some (files st !! path) → is_Some (files r.2 !! path))
  ∧ (¬ under (Lib.path_join (resourcesPath service) "images") path →
     files r.2 !! path = files st !! path)
  ∧ dirs r.2 = dirs st.
Proof.
  cbv zeta. split_and!.
  - apply on_line_keeps.
  - apply on_line_touches.
  - apply on_line_dirs.
Qed.

End Program.

Section Program.
Variable guide : string.
Variable b64 : value → Error + list Byte.byte.

Lemma on_line_parts service line :
  on_line guide b64 service line
  = try_catch
      (request ← lift (JSON_parse line);
       '(id, method, params) ← destructure (Json request);
       respond guide b64 service id method params)
      (report_failure line).
Proof. reflexivity. Qed.

Lemma on_line_parsed service line request id method params h st :
  parsed line = inr request → request ≠ JNull →
  Get (Json request) "id" = inr id → Get (Json request) "method" = inr method →
  Get (Json request) "params" = inr params →
  on_line guide b64 service line h st
  = try_catch (respond guide b64 service id method params) (report_failure line) h st.
Proof.
  intros Hline Hnull Hid Hm Hp. rewrite on_line_parts. unfold try_catch.
  assert (destructure (Json request) h st = (Normal (id, method, params), st)) as Hd.
  { destruct request; try done; unfold destructure; rewrite Hid, Hm, Hp; by do 3 step. }
  assert ((request ← lift (JSON_parse line);
           '(id, method, params) ← destructure (Json request);
           respond guide b64 service id method params) h st
          = respond guide b64 service id method params h st) as ->; [|done].
  unfold JSON_parse. rewrite Hline. step. by erewrite bind_normal by exact Hd.
Qed.

Lemma report_failure_run line request id e h st :
  parsed line = inr request → Get (Json request) "id" = inr id →
  report_failure line e h st
  = (Normal (),
     written (logged st error_level ("Error processing MCP request: " +:+ message e))
       (JSON_stringify [("id", id);
                        ("error", Json (JObj [("message", JStr (message e))]))])).
Proof.
  intros Hline Hid. unfold report_failure, JSON_parse. rewrite Hline. do 2 step.
  rewrite Hid. by step.
Qed.

Lemma dispatch_frame service method params :
  preserves stdout (dispatch guide b64 service method params)
  ∧ no_exit (dispatch guide b64 service method params).
Proof.
  pose proof (generate_image_stdout b64) as H1.
  pose proof (generate_image_no_exit b64) as H2.
  split; unfold dispatch; frame.
Qed.

End Program.

Section Program.
Variable guide : string.
Variable b64 : value → Error + list Byte.byte.

Lemma destructure_run request h st :
  request ≠ JNull →
  ∃ id method params,
    Get (Json request) "id" = inr id ∧ Get (Json request) "method" = inr method
    ∧ Get (Json request) "params" = inr params
    ∧ destructure (Json request) h st = (Normal (id, method, params), st).
Proof. intros Hnull. destruct request; try done; by eexists _, _, _. Qed.

(** The calls of the provider along the handling of a line. *)
Lemma respond_calls service id method params h st :
  calls (respond guide b64 service id method params h st).2 = calls st
  ∨ method = Json (JStr "generate_image")
    ∧ calls (respond guide b64 service id method params h st).2
      = calls (generate_image b64 service params h st).2.
Proof.
  unfold respond. rewrite bind_calls by (intros; frame). unfold dispatch.
  destruct method as [|[| | |m| |]];
    try (left; unfold lift; by destruct (ToString _)).
  destruct (decide (m = "get_info")); [by left|].
  destruct (decide (m = "generate_image")) as [->|]; [|by left].
  right. split; [done|]. rewrite bind_calls by (intros; frame). done.
Qed.

(** X8. The handling of a line calls the provider at most once, and only for
    the method [generate_image]: the call is a POST of JSON to the predict
    endpoint under [BASE_URL] (Google's address by default) with the key of
    the environment in the query; it asks for one sample and carries the
    prompt and the aspect ratio of the request as they came. *)
Theorem one_call_per_line service line h st :
  let r := on_line guide b64 service line h st in
  calls r.2 = calls st
  ∨ ∃ request params prompt ar key,
      parsed line = inr request
      ∧ Get (Json request) "method" = inr (Json (JStr "generate_image"))
      ∧ Get (Json request) "params" = inr params
      ∧ Get params "prompt" = inr prompt
      ∧ Get params "aspect_ratio" = inr ar
      ∧ env h !! "GEMINI_API_KEY" = Some key ∧ key ≠ ""
      ∧ calls r.2
        = calls st
          ++ [{| url := env_or h "BASE_URL" "https://generativelanguage.googleapis.com"
                        +:+ "/v1beta/models/imagen-3.0-generate-002:predict?key=" +:+ key;
                 http_method := "POST";
                 content_type := "application/json";
                 body := {| instances := [prompt]; sampleCount := 1;
                            aspectRatio := ar |} |}].
Proof.
  cbv zeta. rewrite on_line_parts.
  rewrite try_catch_calls by (intros; unfold report_failure; frame).
  destruct (parsed line) as [msg|request] eqn:Hline.
  { left. unfold JSON_parse. rewrite Hline. reflexivity. }
  assert (request = JNull ∨ request ≠ JNull) as [->|Hnull]
    by (destruct request; (by left) || by right).
  { left. unfold JSON_parse. rewrite Hline. by do 2 step. }
  destruct (destructure_run request h st Hnull)
    as (id & method & params & Hid & Hm & Hp & Hd).
  unfold JSON_parse. rewrite Hline. step. erewrite bind_normal by exact Hd. cbv beta iota.
  destruct (respond_calls service id method params h st) as [E|[-> E]]; [by left|].
  rewrite E.
  destruct (generate_image_calls b64 service params h st)
    as [E'|(ar & p & k & Har & _ & Hprompt & _ & Hk & Hne & E')]; cbv zeta in E'; [by left|].
  right. exists request, params, p, ar, k. by split_and!.
Qed.

(** X9. The method [get_info] is answered with the server's description, the
    instructions included, under the id of the request and whatever the
    parameters; nothing else happens: no call, no file, no log record. *)
Theorem get_info_answered service line props h st :
  let r := on_line guide b64 service line h st in
  parsed line = inr (JObj props) → own "method" props = Json (JStr "get_info") →
  r.1 = Normal ()
  ∧ stdout r.2
    = stdout st
      ++ [JSON_stringify
            [("id", own "id" props);
             ("result",
              Json (JObj [("server_info",
                           JObj [("name", JStr "imagen3-mcp"); ("version", JStr "0.1.0")]);
                          ("instructions", JStr guide);
                          ("capabilities", JObj [("tools", JBool true)])]))]]
  ∧ calls r.2 = calls st
  ∧ files r.2 = files st
  ∧ logs r.2 = logs st.
Proof.
  cbv zeta. intros Hline Hm.
  erewrite on_line_parsed; [|exact Hline|done|reflexivity..].
  cbn [Get]. rewrite Hm. by split_and!.
Qed.

(** X10. A failure of the generation is an answer, not a protocol error: when
    [generate_image] is called with parameters whose aspect ratio can be read
    and printed, the handler writes the line {id, result} whose result is the
    text [generate_image] returns, be it URLs or the text of an error. *)
Theorem generation_failures_are_results service line props ar shown h st :
  let r := on_line guide b64 service line h st in
  parsed line = inr (JObj props) → own "method" props = Json (JStr "generate_image") →
  Get (own "params" props) "aspect_ratio" = inr ar → ToString ar = inr shown →
  ∃ text,
    (generate_image b64 service (own "params" props) h st).1 = Normal text
    ∧ r.1 = Normal ()
    ∧ stdout r.2
      = stdout st ++ [JSON_stringify [("id", own "id" props); ("result", Json (JStr text))]].
Proof.
  cbv zeta. intros Hline Hm Har Hshown.
  erewrite on_line_parsed; [|exact Hline|done|reflexivity..].
  cbn [Get]. rewrite Hm.
  pose proof (generate_image_stdout b64 service (own "params" props) h st) as Hout.
  assert (∃ text st1, generate_image b64 service (own "params" props) h st
                      = (Normal text, st1)) as (text & st1 & Hrun).
  { unfold generate_image. step. rewrite Har. step.
    destruct (truthy ar && negb (includes SUPPORTED_ASPECT_RATIOS ar)).
    - rewrite Hshown. do 2 step. by eexists _, _.
    - unfold try_catch.
      match goal with |- context [match ?m h ?s with _ => _ end] =>
        pose proof (generateImageFromGemini_no_exit b64) as Hne;
        assert (no_exit m) as Hm' by frame;
        specialize (Hm' h s); destruct (m h s) as [[urls|e|c] st1]
      end.
      + by eexists _, _.
      + step. by eexists _, _.
      + by destruct (Hm' c). }
  exists text. rewrite Hrun in Hout. split; [by rewrite Hrun|].
  assert (respond guide b64 service (own "id" props) (Json (JStr "generate_image"))
            (own "params" props) h st
          = (Normal (), written st1 (JSON_stringify [("id", own "id" props);
                                                     ("result", Json (JStr text))]))) as Hresp.
  { unfold respond, dispatch. rewrite decide_False by done. rewrite decide_True by done.
    by erewrite bind_normal by (erewrite bind_normal by exact Hrun; reflexivity). }
  unfold try_catch. rewrite Hresp. simpl in *. by rewrite Hout.
Qed.

(** X11. A request for [generate_image] without parameters is a protocol
    error: the answer carries the message of the failed property read, and
    nobody is called. *)
Theorem missing_params_rejected service line props h st :
  let r := on_line guide b64 service line h st in
  parsed line = inr (JObj props) → own "method" props = Json (JStr "generate_image") →
  own "params" props = Undefined →
  r.1 = Normal ()
  ∧ stdout r.2
    = stdout st
      ++ [JSON_stringify
            [("id", own "id" props);
             ("error",
              Json (JObj [("message",
                           JStr "Cannot read properties of undefined (reading 'aspect_ratio')")]))]]
  ∧ calls r.2 = calls st
  ∧ files r.2 = files st.
Proof.
  cbv zeta. intros Hline Hm Hp.
  erewrite on_line_parsed; [|exact Hline|done|reflexivity..].
  cbn [Get]. rewrite Hm, Hp.
  erewrite try_catch_throw; last first.
  { unfold respond, dispatch. simpl. unfold generate_image.
    by erewrite bind_throw by (erewrite bind_throw by (by do 2 step); reflexivity). }
  erewrite report_failure_run by (exact Hline || reflexivity). by split_and!.
Qed.

(** X12. The handler ends in one of two ways, whatever the line: it returns
    and has written exactly one answer, or it throws (the promise it returns
    rejects) and has written none. It never calls [process.exit]. *)
Theorem one_line_or_none service line h st :
  let r := on_line guide b64 service line h st in
  (r.1 = Normal () ∧ ∃ doc, stdout r.2 = stdout st ++ [doc])
  ∨ (∃ e, r.1 = Throw e ∧ stdout r.2 = stdout st).
Proof.
  cbv zeta.
  assert (∀ e st1, stdout st1 = stdout st →
            ((report_failure line e h st1).1 = Normal ()
             ∧ ∃ doc, stdout (report_failure line e h st1).2 = stdout st ++ [doc])
            ∨ (∃ e', (report_failure line e h st1).1 = Throw e'
                     ∧ stdout (report_failure line e h st1).2 = stdout st)) as Hcatch.
  { intros e st1 Hst1. unfold report_failure. step.
    destruct (JSON_parse line) as [e1|request] eqn:Hparse; [right; by eexists|].
    step. destruct (Get request "id") as [e2|id] eqn:Hid; [right; by eexists|].
    step. left. simpl. rewrite Hst1. split; [done|by eexists]. }
  rewrite on_line_parts.
  destruct (JSON_parse line) as [e1|request] eqn:Hparse.
  { erewrite try_catch_throw by (by step). by apply Hcatch. }
  assert (request = JNull ∨ request ≠ JNull) as [->|Hnull]
    by (destruct request; (by left) || by right).
  { erewrite try_catch_throw by (by do 2 step). by apply Hcatch. }
  destruct (destructure_ok request h st Hnull) as (id & method & params & Hid & Hd).
  match goal with |- context [try_catch ?b _ _ _] => set (body := b) end.
  assert (body h st = respond guide b64 service id method params h st) as Hbody.
  { subst body. step. by erewrite bind_normal by exact Hd. }
  destruct (dispatch_frame guide b64 service method params) as [Hout Hne].
  specialize (Hout h st). specialize (Hne h st).
  unfold try_catch. rewrite Hbody. unfold respond, mbind, M_bind.
  destruct (dispatch guide b64 service method params h st) as [[result|e|c] st1]; simpl in *.
  - left. rewrite Hout. split; [done|by eexists].
  - by apply Hcatch.
  - by destruct (Hne c).
Qed.


(** X13. A line that is JSON but no object (a number, a string, a boolean,
    an array) has no method and no id: it is answered by the error of an
    unknown method [undefined], in a document without id. *)
Theorem non_object_rejected service line request h st :
  let r := on_line guide b64 service line h st in
  parsed line = inr request →
  match request with JNull | JObj _ => False | _ => True end →
  r.1 = Normal ()
  ∧ stdout r.2
    = stdout st ++ [JObj [("error", JObj [("message", JStr "Unknown method: undefined")])]]
  ∧ calls r.2 = calls st.
Proof.
  cbv zeta. intros Hline Hshape.
  assert (request ≠ JNull ∧ Get (Json request) "id" = inr Undefined
          ∧ Get (Json request) "method" = inr Undefined
          ∧ Get (Json request) "params" = inr Undefined) as (Hnull & Hid & Hm & Hp)
    by (by destruct request).
  erewrite on_line_parsed by done.
  erewrite try_catch_throw by (unfold respond, dispatch; by step).
  erewrite report_failure_run by done. by split_and!.
Qed.

End Program.

Section Program.
Variable b64 : value → Error + list Byte.byte.


End Program.

(** The runs of [ensureDir]. *)
Lemma ensureDir_run dir purpose h st :
  (tolerated h dir
   ∧ ∃ st', ensureDir dir purpose h st = (Normal (), st')
            ∧ logs st' = logs st ∧ dirs st ⊆ dirs st'
            ∧ (mkdir_error h dir = None → dir ∈ dirs st'))
  ∨ (∃ e, mkdir_error h dir = Some e ∧ code e ≠ Some "EEXIST"
          ∧ ensureDir dir purpose h st
            = (Throw (new_Error ("Could not create " +:+ purpose +:+ " directory at "
                                 +:+ dir +:+ ": " +:+ message e)), st)).
Proof.
  unfold ensureDir, try_catch, mkdir, tolerated.
  destruct (mkdir_error h dir) as [e|] eqn:He.
  - destruct (decide (code e = Some "EEXIST")) as [Hc|Hc].
    + left. split; [by intros e' [= <-]|]. eexists. split; [done|]. by split_and!.
    + right. by exists e.
  - left. split; [done|]. eexists. split; [done|]. proj. split_and!; [done|set_solver..].
Qed.

(** The runs of [main]: it throws when the log directory cannot be made or
    the port is none that a server can listen on, it ends the process after
    an error record, or it returns what it has set up, and then the
    directories, the port and the key were in order. *)
Lemma main_outcome h st :
  (∃ e' st', main h st = (Throw e', st')
     ∧ ((∃ e, mkdir_error h (logDir h) = Some e ∧ code e ≠ Some "EEXIST")
        ∨ (∃ port, Lib.parseInt (env_or h "SERVER_PORT" "9981") = Some port
                   ∧ ¬ (0 <= port <= 65535))))
  ∨ (∃ st', main h st = (Exit 1, st') ∧ ends_in_error st'
            ∧ ¬ (tolerated h (artifactsDir h) ∧ tolerated h (artifactImagesDir h)
                 ∧ is_Some (Lib.parseInt (env_or h "SERVER_PORT" "9981"))
                 ∧ env_missing h "GEMINI_API_KEY" = false))
  ∨ (∃ st' port,
       main h st
       = (Normal {| service := {| resourcesPath := artifactsDir h;
                                  imageResourceServerAddr :=
                                    env_or h "IMAGE_RESOURCE_SERVER_ADDR" "127.0.0.1";
                                  serverPort := port |};
                    listenAddr := env_or h "SERVER_LISTEN_ADDR" "127.0.0.1";
                    imagesDir := artifactImagesDir h |}, st')
       ∧ tolerated h (logDir h) ∧ tolerated h (artifactsDir h)
       ∧ tolerated h (artifactImagesDir h)
       ∧ Lib.parseInt (env_or h "SERVER_PORT" "9981") = Some port
       ∧ 0 <= port <= 65535
       ∧ env_missing h "GEMINI_API_KEY" = false
       ∧ (∀ dir, dir ∈ [logDir h; artifactsDir h; artifactImagesDir h] →
                 mkdir_error h dir = None → dir ∈ dirs st')).
Proof.
  unfold main. step. cbv zeta. fold (logDir h) (artifactsDir h). fold (artifactImagesDir h).
  destruct (ensureDir_run (logDir h) "log" h st)
    as [(T1 & st1 & E1 & _ & S1 & D1)|(e & He & Hc & E1)].
  2:{ left. eexists _, _. split; [by erewrite bind_throw by exact E1|]. left. by exists e. }
  erewrite bind_normal by exact E1. step.
  match goal with |- context [(try_catch ?b ?hd ≫= _) _ ?s] =>
    set (dirs_made := try_catch b hd); set (st2 := s) end.
  assert (dirs st1 ⊆ dirs st2) as S2 by (subst st2; proj; done). clearbody st2.
  assert ((∃ st3, dirs_made h st2 = (Exit 1, st3) ∧ ends_in_error st3
                  ∧ ¬ (tolerated h (artifactsDir h) ∧ tolerated h (artifactImagesDir h)))
          ∨ (∃ st3, dirs_made h st2 = (Normal (), st3)
                    ∧ tolerated h (artifactsDir h) ∧ tolerated h (artifactImagesDir h)
                    ∧ dirs st2 ⊆ dirs st3
                    ∧ (mkdir_error h (artifactsDir h) = None → artifactsDir h ∈ dirs st3)
                    ∧ (mkdir_error h (artifactImagesDir h) = None
                       → artifactImagesDir h ∈ dirs st3))) as Hdirs.
  { subst dirs_made.
    destruct (ensureDir_run (artifactsDir h) "resources" h st2)
      as [(T2 & st3 & E2 & _ & S3 & D2)|(e & He & Hc & E2)].
    2:{ left. eexists. split_and!.
        - erewrite try_catch_throw by (by erewrite bind_throw by exact E2).
          step. reflexivity.
        - by eexists _, _.
        - intros [T _]. by apply Hc, T. }
    destruct (ensureDir_run (artifactImagesDir h) "images" h
                (logged st3 info "Created resources directory."))
      as [(T3 & st4 & E3 & _ & S4 & D3)|(e & He & Hc & E3)].
    - right. eexists. split_and!.
      + apply try_catch_normal.
        erewrite bind_normal by exact E2. step. erewrite bind_normal by exact E3.
        reflexivity.
      + done.
      + done.
      + proj. unfold logged in S4. proj. set_solver.
      + intros H. proj. unfold logged in S4. proj. set_solver.
      + intros H. proj. by apply D3.
    - left. eexists. split_and!.
      + erewrite try_catch_throw; last first.
        { erewrite bind_normal by exact E2. step. by erewrite bind_throw by exact E3. }
        step. reflexivity.
      + by eexists _, _.
      + intros [_ T]. by apply Hc, T. }
  clearbody dirs_made.
  destruct Hdirs as [(st3 & E & Herr & Hnot)|(st3 & E & T2 & T3 & S3 & D2 & D3)].
  { right; left. exists st3. split_and!; [by erewrite bind_exit by exact E|done|tauto]. }
  erewrite bind_normal by exact E.
  destruct (Lib.parseInt (env_or h "SERVER_PORT" "9981")) as [port|] eqn:Hport.
  2:{ right; left. eexists. split_and!; [step; reflexivity|by eexists _, _|].
      intros (_ & _ & [? ?] & _). done. }
  destruct (env_missing h "GEMINI_API_KEY") eqn:Hkey.
  { right; left. eexists. split_and!; [step; reflexivity|by eexists _, _|].
    intros (_ & _ & _ & ?). done. }
  do 2 step.
  destruct ((0 <=? port) && (port <=? 65535)) eqn:Hrange.
  2:{ left. eexists _, _. split.
      - erewrite bind_throw; [reflexivity|]. unfold listen. by rewrite Hrange.
      - right. exists port. split; [done|].
        apply andb_false_iff in Hrange as [?%Z.leb_gt|?%Z.leb_gt]; lia. }
  apply andb_true_iff in Hrange as Hin. destruct Hin as [?%Z.leb_le ?%Z.leb_le].
  erewrite bind_normal by (unfold listen; by rewrite Hrange).
  right; right. eexists _, port. split_and!; [by step|done..|].
  intros dir Hdir Hmk. proj.
  apply elem_of_cons in Hdir as [->|Hdir]; [set_solver|].
  apply elem_of_cons in Hdir as [->|Hdir]; [set_solver|].
  apply list_elem_of_singleton in Hdir as ->. set_solver.
Qed.

(** X15. Startup never lets an error escape: it returns what it has set up
    or ends the process, and it ends the process only with status 1 and an
    error record as the last of the log. It neither calls the provider nor
    writes an answer. *)
Theorem startup_ends_cleanly h st :
  let r := start h st in
  (∀ e, r.1 ≠ Throw e)
  ∧ (∀ c, r.1 = Exit c → c = 1 ∧ ends_in_error r.2)
  ∧ calls r.2 = calls st
  ∧ stdout r.2 = stdout st.
Proof.
  cbv zeta.
  assert (preserves stdout start ∧ preserves calls start) as (Hout & Hcalls)
    by (split_and!; unfold start, main, ensureDir; frame).
  split_and!; [| |done..]; unfold start;
    destruct (main_outcome h st)
      as [(e' & st' & E & _)|[(st' & E & Herr & _)|(st' & port & E & _)]].
  - intros e. erewrite try_catch_throw by exact E. by step.
  - intros e. unfold try_catch. by rewrite E.
  - intros e. unfold try_catch. by rewrite E.
  - intros c. erewrite try_catch_throw by exact E. step. intros [= <-].
    split; [done|]. by eexists _, _.
  - intros c. unfold try_catch. rewrite E. by intros [= <-].
  - intros c. unfold try_catch. by rewrite E.
Qed.

(** X16. When one of the three directories of startup (logs, artifacts,
    images) cannot be made, for another reason than that it exists, startup
    ends the process with status 1 after an error record. *)
Theorem directory_failure_stops h st dir e :
  let r := start h st in
  dir ∈ [Lib.path_join (dataDir h) "logs"; Lib.path_join (dataDir h) "artifacts";
         Lib.path_join (Lib.path_join (dataDir h) "artifacts") "images"] →
  mkdir_error h dir = Some e → code e ≠ Some "EEXIST" →
  r.1 = Exit 1 ∧ ends_in_error r.2.
Proof.
  cbv zeta. intros Hdir He Hc. unfold start.
  destruct (main_outcome h st)
    as [(e' & st' & E & _)|[(st' & E & Herr & _)|(st' & port & E & T1 & T2 & T3 & _)]].
  - erewrite try_catch_throw by exact E. step. split; [done|]. by eexists _, _.
  - unfold try_catch. by rewrite E.
  - exfalso. apply Hc.
    apply elem_of_cons in Hdir as [->|Hdir]; [by apply T1|].
    apply elem_of_cons in Hdir as [->|Hdir]; [by apply T2|].
    apply list_elem_of_singleton in Hdir as ->. by apply T3.
Qed.

(** X17. With a key, a port that [parseInt] reads and that lies within 0 and
    65535, and directories that can be made or exist already, startup gets
    as far as the loop over the lines and hands it the service: artifacts
    under the data directory, images in [images] under them, the addresses
    taken from the environment or 127.0.0.1; and every directory the file
    system let it make is there. *)
Theorem startup_sets_up h st key port :
  let r := start h st in
  (∀ dir e,
     dir ∈ [Lib.path_join (dataDir h) "logs"; Lib.path_join (dataDir h) "artifacts";
            Lib.path_join (Lib.path_join (dataDir h) "artifacts") "images"] →
     mkdir_error h dir = Some e → code e = Some "EEXIST") →
  env h !! "GEMINI_API_KEY" = Some key → key ≠ "" →
  Lib.parseInt (env_or h "SERVER_PORT" "9981") = Some port → 0 <= port <= 65535 →
  r.1 = Normal {| service := {| resourcesPath := Lib.path_join (dataDir h) "artifacts";
                                imageResourceServerAddr :=
                                  env_or h "IMAGE_RESOURCE_SERVER_ADDR" "127.0.0.1";
                                serverPort := port |};
                  listenAddr := env_or h "SERVER_LISTEN_ADDR" "127.0.0.1";
                  imagesDir := Lib.path_join (Lib.path_join (dataDir h) "artifacts")
                                 "images" |}
  ∧ (∀ dir,
       dir ∈ [Lib.path_join (dataDir h) "logs"; Lib.path_join (dataDir h) "artifacts";
              Lib.path_join (Lib.path_join (dataDir h) "artifacts") "images"] →
       mkdir_error h dir = None → dir ∈ dirs r.2).
Proof.
  cbv zeta. intros Hdirs Hkey Hne Hport. unfold start.
  assert (env_missing h "GEMINI_API_KEY" = false) as Hk.
  { unfold env_missing. rewrite Hkey. by apply bool_decide_eq_false_2. }
  destruct (main_outcome h st)
    as [(e' & st' & _ & [(e0 & He0 & Hc)|(port' & Hp & Hout)])
       |[(st' & _ & _ & Hnot)|(st' & port' & E & _ & _ & _ & Hp & _ & _ & D)]].
  - intros _. exfalso. apply Hc. eapply Hdirs; [|exact He0]. set_solver.
  - intros Hrange. exfalso. rewrite Hport in Hp. injection Hp as <-. by apply Hout.
  - intros _. exfalso. apply Hnot. split_and!; [| |by eexists|done].
    + intros e. apply Hdirs. set_solver.
    + intros e. apply Hdirs. set_solver.
  - intros _. unfold try_catch. rewrite E. rewrite Hport in Hp. injection Hp as <-.
    split; [done|exact D].
Qed.

(** Decimal numerals, and what [parseInt] reads back from them. *)
Lemma pretty_N_char_digit d : (d < 10)%N → Lib.digit_of (pretty_N_char d) = Some (Z.of_N d).
Proof.
  intros Hd. destruct d as [|p]; [done|].
  do 4 (destruct p as [p|p|]; try (reflexivity || lia)).
Qed.


Lemma digits_pretty_N_go x : ∀ s,
  (0 < x)%N → Lib.digits None (pretty_N_go x s) = Lib.digits (Some (Z.of_N x)) s.
Proof.
  induction (N.lt_wf_0 x) as [x _ IH]; intros s Hx.
  rewrite pretty_N_go_step by done.
  pose proof (N.div_mod x 10 ltac:(lia)) as Hdm.
  pose proof (N.mod_lt x 10 ltac:(lia)) as Hr.
  pose proof (N.div_lt x 10 Hx ltac:(lia)) as Hq.
  destruct (N.eq_0_gt_0_cases (x `div` 10)) as [H0|Hpos].
  - rewrite H0, pretty_N_go_0. cbn [Lib.digits].
    rewrite pretty_N_char_digit by done. cbn [default].
    assert (10 * 0 + Z.of_N (x `mod` 10) = Z.of_N x) as ->; [|done].
    rewrite H0 in Hdm. clear -Hdm. set (r := (x `mod` 10)%N) in *. clearbody r. lia.
  - rewrite IH; [|done|done]. cbn [Lib.digits].
    rewrite pretty_N_char_digit by done. cbn [default]. unfold id.
    assert (10 * Z.of_N (x `div` 10) + Z.of_N (x `mod` 10) = Z.of_N x) as ->; [|done].
    clear -Hdm. set (q := (x `div` 10)%N) in *. set (r := (x `mod` 10)%N) in *.
    clearbody q r. lia.
Qed.

Lemma pretty_N_go_head x s :
  (0 < x)%N → ∃ d t, (d < 10)%N ∧ pretty_N_go x s = String (pretty_N_char d) t.
Proof.
  revert s. induction (N.lt_wf_0 x) as [x _ IH]; intros s Hx.
  rewrite pretty_N_go_step by done.
  destruct (N.eq_0_gt_0_cases (x `div` 10)) as [H0|Hpos].
  - rewrite H0, pretty_N_go_0. eexists _, _. split; [|done]. by apply N.mod_lt.
  - apply IH; [by apply N.div_lt|done].
Qed.

Lemma skip_ws_digit fuel d t :
  (d < 10)%N → Lib.skip_ws fuel (String (pretty_N_char d) t) = String (pretty_N_char d) t.
Proof.
  intros Hd. destruct fuel as [|fuel]; [done|].
  destruct d as [|p]; [done|].
  do 4 (destruct p as [p|p|]; try (reflexivity || lia)).
Qed.

Lemma parseInt_pretty_N x : Lib.parseInt (pretty x) = Some (Z.of_N x).
Proof.
  unfold pretty, pretty_N. destruct (decide (x = 0%N)) as [->|Hx]; [done|].
  destruct (pretty_N_go_head x "") as (d & t & Hd & E); [lia|].
  unfold Lib.parseInt. rewrite E, skip_ws_digit by done.
  assert (Lib.digits None (String (pretty_N_char d) t) = Some (Z.of_N x)) as Hr
    by (rewrite <- E, digits_pretty_N_go by lia; done).
  destruct d as [|p]; [exact Hr|].
  do 4 (destruct p as [p|p|]; try (exact Hr || lia)).
Qed.

Lemma parseInt_pretty n : 0 <= n → Lib.parseInt (pretty n) = Some n.
Proof.
  intros Hn. destruct n as [|p|p]; [done| |lia].
  change (pretty (Z.pos p)) with (pretty (N.pos p)). by rewrite parseInt_pretty_N.
Qed.












(** The listing. *)
Lemma strip_prefix_spec p : ∀ s t, strip_prefix p s = Some t ↔ s = p +:+ t.
Proof.
  induction p as [|a p IH]; intros s t; simpl.
  - split; [by intros [= ->]|by intros ->].
  - destruct s as [|b s]; [by rewrite string_cons_app|].
    rewrite string_cons_app. destruct (decide (a = b)) as [->|Hab].
    + rewrite IH. split; [by intros ->|by intros [= ->]].
    + split; [done|]. by intros [= -> _].
Qed.

Lemma entry_name_spec dir path name :
  entry_name dir path = Some name
  ↔ path = Lib.path_join dir name ∧ name ≠ "" ∧ plain name.
Proof.
  unfold entry_name, Lib.path_join, plain.
  destruct (strip_prefix (dir +:+ "/") path) as [t|] eqn:E.
  - apply strip_prefix_spec in E. rewrite append_assoc in E. subst path.
    destruct (bool_decide (t = "")) eqn:Ht; simpl.
    + apply bool_decide_eq_true_1 in Ht as ->. split; [done|].
      intros (H%(inj (String.append _))%(inj (String.append _)) & Hne & _). by subst.
    + apply bool_decide_eq_false_1 in Ht. destruct (has_slash t) eqn:Hs.
      * split; [done|].
        intros (H%(inj (String.append _))%(inj (String.append _)) & _ & Hp). subst.
        congruence.
      * split; [by intros [= <-]|].
        by intros (H%(inj (String.append _))%(inj (String.append _)) & _ & _); subst.
  - split; [done|]. intros (-> & _ & _).
    assert (strip_prefix (dir +:+ "/") (dir +:+ "/" +:+ name) = Some name) as E'
      by (apply strip_prefix_spec; by rewrite append_assoc).
    congruence.
Qed.

Lemma listImages_run readdir_error rp h st :
  readdir_error (Lib.path_join rp "images") = None →
  ∃ names,
    listImages readdir_error rp h st = (Normal names, st)
    ∧ ∀ name, name ∈ names
        ↔ name ≠ "" ∧ plain name
          ∧ is_Some (files st !! Lib.path_join (Lib.path_join rp "images") name).
Proof.
  intros Hdir. unfold listImages, readdir. cbv zeta.
  eexists. split.
  { unfold mbind, M_bind. rewrite Hdir. reflexivity. }
  intros name. rewrite list_elem_of_fmap. split.
  - intros (dirent & -> & Hin). apply list_elem_of_filter in Hin as [Hfile Hin].
    unfold entries in Hin. apply elem_of_app in Hin as [Hin|Hin];
      apply list_elem_of_omap in Hin as (x & Hx & Hname).
    + destruct (entry_name _ x.1) as [n|] eqn:En; [|done].
      injection Hname as <-. simpl. apply entry_name_spec in En as (Hpath & Hne & Hp).
      destruct x as [path data]. simpl in *. apply elem_of_map_to_list in Hx.
      split_and!; [done..|]. rewrite <- Hpath. by eexists.
    + destruct (entry_name _ x) as [n|]; [|done]. injection Hname as <-. done.
  - intros (Hne & Hp & [data Hdata]).
    exists {| dirent_name := name; isFile := true |}. split; [done|].
    apply list_elem_of_filter. split; [done|]. unfold entries. apply elem_of_app. left.
    apply list_elem_of_omap. exists (Lib.path_join (Lib.path_join rp "images") name, data).
    split; [by apply elem_of_map_to_list|]. cbn [fst].
    assert (entry_name (Lib.path_join rp "images")
              (Lib.path_join (Lib.path_join rp "images") name) = Some name) as ->
      by (by apply entry_name_spec).
    done.
Qed.

(** X18. A port given as the decimal numeral of a number ([n] below 2^53,
    which a double holds exactly) is the port of the service, and the URLs of
    the images carry that same numeral. *)
Theorem configured_port_is_used h st n s :
  let r := start h st in
  r.1 = Normal s → env h !! "SERVER_PORT" = Some (pretty n) → 0 <= n < 2 ^ 53 →
  serverPort (service s) = n
  ∧ ∀ filename,
      image_url (service s) filename
      = "http://" +:+ imageResourceServerAddr (service s) +:+ ":" +:+ pretty n
        +:+ "/images/" +:+ filename.
Proof.
  cbv zeta. intros Hrun Henv Hn.
  assert (serverPort (service s) = n) as Hport; [|split; [done|]].
  2:{ intros filename. unfold image_url. by rewrite Hport. }
  assert (env_or h "SERVER_PORT" "9981" = pretty n) as Hor.
  { unfold env_or. rewrite Henv. destruct (decide (pretty n = "")) as [E|]; [|done].
    pose proof (parseInt_pretty n (proj1 Hn)) as Hp. rewrite E in Hp. discriminate Hp. }
  unfold start in Hrun.
  destruct (main_outcome h st)
    as [(e' & st' & E & _)|[(st' & E & _)|(st' & port & E & _ & _ & _ & Hp & _)]].
  - erewrite try_catch_throw in Hrun by exact E. revert Hrun. by step.
  - unfold try_catch in Hrun. by rewrite E in Hrun.
  - unfold try_catch in Hrun. rewrite E in Hrun. injection Hrun as <-. cbn.
    rewrite Hor, parseInt_pretty in Hp by apply Hn. by injection Hp.
Qed.

Section Program.
Variable guide : string.
Variable b64 : value → Error + list Byte.byte.

(** X19. The directory startup hands to the HTTP server is the one the images
    go to: it is [images] under the resources of the service, startup has made
    it where the file system let it, and the handling of a line changes no
    file outside it. *)
Theorem images_go_where_they_are_served h st s line h' st' path :
  let r := start h st in
  r.1 = Normal s →
  imagesDir s = Lib.path_join (resourcesPath (service s)) "images"
  ∧ (mkdir_error h (imagesDir s) = None → imagesDir s ∈ dirs r.2)
  ∧ (¬ under (imagesDir s) path →
     files (on_line guide b64 (service s) line h' st').2 !! path = files st' !! path).
Proof.
  cbv zeta. intros Hrun. unfold start in *.
  destruct (main_outcome h st)
    as [(e' & st1 & E & _)|[(st1 & E & _)|(st1 & port & E & _ & _ & _ & _ & _ & _ & D)]].
  - erewrite try_catch_throw in Hrun by exact E. revert Hrun. by step.
  - unfold try_catch in Hrun. by rewrite E in Hrun.
  - unfold try_catch in *. rewrite E in *. injection Hrun as <-. cbn.
    split_and!; [done| |].
    + apply D. set_solver.
    + apply (on_line_touches guide b64
               {| resourcesPath := artifactsDir h;
                  imageResourceServerAddr := env_or h "IMAGE_RESOURCE_SERVER_ADDR" "127.0.0.1";
                  serverPort := port |}).
Qed.

End Program.

(** X20. [listImages] gives the names of the files that lie directly in the
    images directory, and of nothing else: no directory, no file further
    down; it changes nothing. When the directory cannot be read, it throws
    what the file system threw. *)
Theorem listing_shows_image_files readdir_error rp h st :
  match readdir_error (Lib.path_join rp "images") with
  | Some e => listImages readdir_error rp h st = (Throw e, st)
  | None =>
      ∃ names,
        listImages readdir_error rp h st = (Normal names, st)
        ∧ ∀ name, name ∈ names
            ↔ name ≠ "" ∧ plain name
              ∧ is_Some (files st !! Lib.path_join (Lib.path_join rp "images") name)
  end.
Proof.
  destruct (readdir_error _) as [e|] eqn:Hdir; [|by apply listImages_run].
  unfold listImages, readdir, mbind, M_bind. cbv zeta. by rewrite Hdir.
Qed.

(** X21. The route [/list-images] always replies: with status 200 and the
    names as a JSON array of strings, or, when the directory cannot be read,
    with status 500 and a fixed text, the reason going to the log only. It
    changes no file and calls nobody. *)
Theorem list_route_replies readdir_error rp h st :
  let r := list_images_route readdir_error rp h st in
  match readdir_error (Lib.path_join rp "images") with
  | Some e =>
      r.1 = Normal (SendText 500 "Failed to list images.")
      ∧ ∃ earlier, logs r.2 = earlier ++ [(error_level, "Failed to list images: " +:+ message e)]
  | None =>
      ∃ names,
        r.1 = Normal (SendJson 200 (JArr (JStr <$> names)))
        ∧ ∀ name, name ∈ names
            ↔ name ≠ "" ∧ plain name
              ∧ is_Some (files st !! Lib.path_join (Lib.path_join rp "images") name)
  end
  ∧ files r.2 = files st
  ∧ calls r.2 = calls st.
Proof.
  cbv zeta. unfold list_images_route. step.
  destruct (readdir_error _) as [e|] eqn:Hdir.
  - erewrite try_catch_throw; last first.
    { apply bind_throw. unfold listImages, readdir, mbind, M_bind. cbv zeta.
      by rewrite Hdir. }
    step. split_and!; [done|by eexists|done..].
  - destruct (listImages_run readdir_error rp h (logged st info "Received request to list images."))
      as (names & Hrun & Hnames); [done|].
    erewrite try_catch_normal by (erewrite bind_normal by exact Hrun; reflexivity).
    split_and!; [|done..]. by exists names.
Qed.

Section Program.
Variable b64 : value → Error + list Byte.byte.



End Program.

Lemma get_info_answered_witness :
  let r := on_line guide base64_decode srv (request_line 7 "get_info") h_one st0 in
  r.1 = Normal ()
  ∧ stdout r.2
    = [] ++ [JSON_stringify
               [("id", Json (JNum 7));
                ("result",
                 Json (JObj [("server_info",
                              JObj [("name", JStr "imagen3-mcp"); ("version", JStr "0.1.0")]);
                             ("instructions", JStr guide);
                             ("capabilities", JObj [("tools", JBool true)])]))]]
  ∧ calls r.2 = []
  ∧ files r.2 = ∅
  ∧ logs r.2 = [].
Proof.
  apply (get_info_answered guide base64_decode srv (request_line 7 "get_info")
           [("id", JNum 7); ("method", JStr "get_info")] h_one st0); reflexivity.
Defined.

Lemma generation_failures_are_results_witness :
  let r := on_line guide base64_decode srv generate_line h_500 st0 in
  ∃ text,
    (generate_image base64_decode srv
       (Json (JObj [("prompt", JStr "a red cube"); ("aspect_ratio", JStr "16:9")]))
       h_500 st0).1 = Normal text
    ∧ r.1 = Normal ()
    ∧ stdout r.2
      = [] ++ [JSON_stringify [("id", Json (JNum 1)); ("result", Json (JStr text))]].
Proof.
  apply (generation_failures_are_results guide base64_decode srv generate_line
           [("id", JNum 1); ("method", JStr "generate_image");
            ("params", JObj [("prompt", JStr "a red cube"); ("aspect_ratio", JStr "16:9")])]
           (Json (JStr "16:9")) "16:9" h_500 st0); reflexivity.
Defined.

Lemma missing_params_rejected_witness :
  let r := on_line guide base64_decode srv (request_line 7 "generate_image") h_one st0 in
  r.1 = Normal ()
  ∧ stdout r.2
    = [] ++ [JSON_stringify
               [("id", Json (JNum 7));
                ("error",
                 Json (JObj [("message",
                              JStr "Cannot read properties of undefined (reading 'aspect_ratio')")]))]]
  ∧ calls r.2 = []
  ∧ files r.2 = ∅.
Proof.
  apply (missing_params_rejected guide base64_decode srv (request_line 7 "generate_image")
           [("id", JNum 7); ("method", JStr "generate_image")] h_one st0); reflexivity.
Defined.

Lemma non_object_rejected_witness :
  let r := on_line guide base64_decode srv number_line h_one st0 in
  r.1 = Normal ()
  ∧ stdout r.2
    = [] ++ [JObj [("error", JObj [("message", JStr "Unknown method: undefined")])]]
  ∧ calls r.2 = [].
Proof.
  apply (non_object_rejected guide base64_decode srv number_line (JNum 42) h_one st0).
  - reflexivity.
  - exact I.
Defined.


Lemma directory_failure_stops_witness :
  let r := start h_readonly st0 in
  r.1 = Exit 1 ∧ ends_in_error r.2.
Proof.
  apply (directory_failure_stops h_readonly st0 "/data/artifacts"
           (mkError "Error" "EACCES: permission denied, mkdir '/data/artifacts'"
                    (Some "EACCES"))).
  - apply (bool_decide_eq_true_1 _). vm_compute. reflexivity.
  - reflexivity.
  - discriminate.
Defined.

Lemma startup_sets_up_witness :
  let r := start h_one st0 in
  r.1 = Normal {| service := {| resourcesPath := Lib.path_join "/data" "artifacts";
                                imageResourceServerAddr :=
                                  env_or h_one "IMAGE_RESOURCE_SERVER_ADDR" "127.0.0.1";
                                serverPort := 9981 |};
                  listenAddr := env_or h_one "SERVER_LISTEN_ADDR" "127.0.0.1";
                  imagesDir := Lib.path_join (Lib.path_join "/data" "artifacts") "images" |}
  ∧ (∀ dir,
       dir ∈ [Lib.path_join "/data" "logs"; Lib.path_join "/data" "artifacts";
              Lib.path_join (Lib.path_join "/data" "artifacts") "images"] →
       mkdir_error h_one dir = None → dir ∈ dirs r.2).
Proof.
  apply (startup_sets_up h_one st0 "k" 9981).
  - discriminate.
  - reflexivity.
  - discriminate.
  - reflexivity.
  - lia.
Defined.

Lemma configured_port_is_used_witness :
  let s := {| service := {| resourcesPath := "/data/artifacts";
                            imageResourceServerAddr := "127.0.0.1";
                            serverPort := 8080 |};
              listenAddr := "127.0.0.1";
              imagesDir := "/data/artifacts/images" |} in
  serverPort (service s) = 8080
  ∧ ∀ filename,
      image_url (service s) filename
      = "http://" +:+ imageResourceServerAddr (service s) +:+ ":" +:+ pretty 8080
        +:+ "/images/" +:+ filename.
Proof.
  apply (configured_port_is_used (h_port "8080") st0 8080).
  - vm_compute. reflexivity.
  - reflexivity.
  - lia.
Defined.

Lemma images_go_where_they_are_served_witness :
  let s := {| service := srv; listenAddr := "127.0.0.1";
              imagesDir := "/data/artifacts/images" |} in
  imagesDir s = Lib.path_join (resourcesPath (service s)) "images"
  ∧ (mkdir_error h_one (imagesDir s) = None → imagesDir s ∈ dirs (start h_one st0).2)
  ∧ (¬ under (imagesDir s) "/etc/passwd" →
     files (on_line guide base64_decode (service s) generate_line h_one st0).2
       !! "/etc/passwd"
     = files st0 !! "/etc/passwd").
Proof.
  apply (images_go_where_they_are_served guide base64_decode h_one st0
           {| service := srv; listenAddr := "127.0.0.1";
              imagesDir := "/data/artifacts/images" |}
           generate_line h_one st0 "/etc/passwd").
  vm_compute. reflexivity.
Defined.


End Further.
